(** * Simple Email Sandbox: thread/message sequencing and reply logic

    A shallow embedding of [src/src/schema.ts], [src/src/db/service.ts] and
    the request handlers of [createApp] in [src/src/app.ts].

    Modelling choices:
    - JS strings are [String.string]; a character is one 8-bit [ascii] code
      unit read as Latin-1 (so U+00A0, code 160, is whitespace as in JS).
    - The SQLite store is a record of two [gmap]s (groups, threads, keyed by
      their primary key) and the list of message rows in insertion order,
      i.e. in the order of the AUTOINCREMENT column [id].
    - Numbers produced by [parseInt]/[String] are unbounded integers: the
      IEEE rounding of JS numbers above 2^53 is outside the model.
    - Timestamps ([createdAt]) are not modelled: no claim depends on them.
    - The request fields [body] and [subject] are arbitrary JSON values,
      bound into SQL by better-sqlite3's rules; the identifier fields
      ([groupId], [from], [to], [threadId], [replyToMessageId]) are strings.
    - A handler returns the HTTP response and the store after the call;
      a statement that throws inside the [try] block yields a 500 and keeps
      whatever the earlier statements committed. *)

From Stdlib Require Import Ascii String DecimalN Floats.
From stdpp Require Import base gmap strings list.

Local Open Scope string_scope.

(* ------------------------------------------------------------------ *)
(** ** JS string helpers *)

(** [StrWhiteSpaceChar] restricted to one code unit: TAB, LF, VT, FF, CR,
    SPACE and NO-BREAK SPACE. *)
Definition is_ws (c : ascii) : bool :=
  let n := Ascii.N_of_ascii c in
  N.eqb n 9 || N.eqb n 10 || N.eqb n 11 || N.eqb n 12 || N.eqb n 13 ||
  N.eqb n 32 || N.eqb n 160.

(** [String.prototype.trimStart] *)
Fixpoint trim_start (s : string) : string :=
  match s with
  | EmptyString => EmptyString
  | String c r => if is_ws c then trim_start r else s
  end.

(** [String.prototype.trimEnd] *)
Fixpoint trim_end (s : string) : string :=
  match s with
  | EmptyString => EmptyString
  | String c r =>
      let r' := trim_end r in
      if String.eqb r' "" && is_ws c then EmptyString else String c r'
  end.

(** [String.prototype.trim] *)
Definition trim (s : string) : string := trim_end (trim_start s).

(* ------------------------------------------------------------------ *)
(** ** [replySubject] (app.ts, lines 99-105) *)

Definition DEFAULT_SUBJECT : string := "No subject".

(** The regular expression [/^re:/i] (non-unicode case folding: only
    [r]/[R] and [e]/[E] fold onto the pattern letters). *)
Definition re_prefix_test (s : string) : bool :=
  match s with
  | String a (String b (String c _)) =>
      (Ascii.eqb a "r" || Ascii.eqb a "R") &&
      (Ascii.eqb b "e" || Ascii.eqb b "E") && Ascii.eqb c ":"
  | _ => false
  end.

Definition replySubject (subject : string) : string :=
  if String.eqb subject "" || String.eqb (trim subject) "" then
    String.append "Re: " DEFAULT_SUBJECT
  else
    let trimmed := trim subject in
    if re_prefix_test trimmed then trimmed else String.append "Re: " trimmed.

Example replySubject_empty : replySubject "" = "Re: No subject".
Proof. reflexivity. Qed.
Example replySubject_re : replySubject "  rE: X " = "rE: X".
Proof. reflexivity. Qed.
Example replySubject_plain : replySubject " Hi" = "Re: Hi".
Proof. reflexivity. Qed.

(* ------------------------------------------------------------------ *)
(** ** [Number.parseInt(_, 10)] and [String(n)] *)

Fixpoint uint_to_string (d : Decimal.uint) : string :=
  match d with
  | Decimal.Nil => EmptyString
  | Decimal.D0 d => String "0" (uint_to_string d)
  | Decimal.D1 d => String "1" (uint_to_string d)
  | Decimal.D2 d => String "2" (uint_to_string d)
  | Decimal.D3 d => String "3" (uint_to_string d)
  | Decimal.D4 d => String "4" (uint_to_string d)
  | Decimal.D5 d => String "5" (uint_to_string d)
  | Decimal.D6 d => String "6" (uint_to_string d)
  | Decimal.D7 d => String "7" (uint_to_string d)
  | Decimal.D8 d => String "8" (uint_to_string d)
  | Decimal.D9 d => String "9" (uint_to_string d)
  end.

(** The longest prefix of decimal digits. *)
Fixpoint digits_prefix (s : string) : Decimal.uint :=
  match s with
  | EmptyString => Decimal.Nil
  | String c r =>
      if Ascii.eqb c "0" then Decimal.D0 (digits_prefix r)
      else if Ascii.eqb c "1" then Decimal.D1 (digits_prefix r)
      else if Ascii.eqb c "2" then Decimal.D2 (digits_prefix r)
      else if Ascii.eqb c "3" then Decimal.D3 (digits_prefix r)
      else if Ascii.eqb c "4" then Decimal.D4 (digits_prefix r)
      else if Ascii.eqb c "5" then Decimal.D5 (digits_prefix r)
      else if Ascii.eqb c "6" then Decimal.D6 (digits_prefix r)
      else if Ascii.eqb c "7" then Decimal.D7 (digits_prefix r)
      else if Ascii.eqb c "8" then Decimal.D8 (digits_prefix r)
      else if Ascii.eqb c "9" then Decimal.D9 (digits_prefix r)
      else Decimal.Nil
  end.

(** [Number.parseInt(s, 10)]: leading whitespace, an optional sign, then
    the longest digit prefix; [None] is [NaN] (no digit). *)
Definition parseInt10 (s : string) : option Z :=
  let s1 := trim_start s in
  let '(neg, r) :=
    match s1 with
    | String c r =>
        if Ascii.eqb c "-" then (true, r)
        else if Ascii.eqb c "+" then (false, r) else (false, s1)
    | EmptyString => (false, s1)
    end in
  match digits_prefix r with
  | Decimal.Nil => None
  | d => let v := Z.of_N (N.of_uint d) in Some (if neg then Z.opp v else v)
  end.

(** [String(n)] for a natural number. *)
Definition str_N (n : N) : string := uint_to_string (N.to_uint n).

(** [String(z)] for an integer. *)
Definition js_string_of_Z (z : Z) : string :=
  if Z.ltb z 0 then String "-" (str_N (Z.to_N (Z.opp z))) else str_N (Z.to_N z).

(** The message identifier of the [i]-th message of a thread. *)
Definition str_nat (i : nat) : string := str_N (N.of_nat i).

Example parseInt10_ex1 : parseInt10 " 12ab" = Some 12%Z.
Proof. reflexivity. Qed.
Example parseInt10_ex2 : parseInt10 "abc" = None.
Proof. reflexivity. Qed.
Example str_nat_ex : str_nat 105 = "105".
Proof. reflexivity. Qed.

(* ------------------------------------------------------------------ *)
(** ** Data model (schema.ts and the SQLite tables of db/init.ts) *)

Abbreviation GroupId := string (only parsing).
Abbreviation AgentAddress := string (only parsing).
Abbreviation ThreadId := string (only parsing).
Abbreviation MessageId := string (only parsing).

(** A row of [groups]: [id] and [agents]. *)
Record Group := mkGroup {
  g_id : GroupId;
  g_agents : list AgentAddress
}.

(** A row of [threads]; [Thread.messages] is recomputed by [getThread]
    from the message rows, it is not stored. *)
Record Thread := mkThread {
  t_threadId : ThreadId;
  t_groupId : GroupId;
  t_subject : string;
  t_createdBy : AgentAddress;
  t_lastIndex : MessageId
}.

(** A row of [messages]. *)
Record Message := mkMessage {
  m_groupId : GroupId;
  m_threadId : ThreadId;
  m_messageid : MessageId;
  m_from : AgentAddress;
  m_to : list AgentAddress;
  m_subject : string;
  m_body : string
}.

Record State := mkState {
  groups : gmap GroupId Group;
  threads : gmap ThreadId Thread;
  messages : list Message
}.

Definition empty_state : State := mkState ∅ ∅ [].

(** JS truthiness of an optional string field. *)
Definition truthy (o : option string) : bool :=
  match o with Some s => negb (String.eqb s "") | None => false end.

(* ------------------------------------------------------------------ *)
(** ** JSON values of a request body ([express.json()]) *)

(** A JSON number: the double [JSON.parse] yields, and the text SQLite
    stores when that double is bound into a TEXT column. How SQLite
    renders a REAL as TEXT is SQLite's, not this repository's, and varies
    between its versions, so the model takes the text along with the
    number instead of fixing one rendering. *)
Record JNumber := mkJNumber { num_value : float; num_text : string }.

#[warnings="-register-all"]
Inductive JSON :=
| JNull
| JBool (b : bool)
| JNum (n : JNumber)
| JStr (s : string)
| JArr (l : list JSON)
| JObj (fields : list (string * JSON)).

(** JS truthiness: [null], [false], [0], [-0], [NaN] and [""] are falsy;
    arrays and objects, even empty ones, are truthy. *)
Definition json_truthy (v : JSON) : bool :=
  match v with
  | JNull => false
  | JBool b => b
  | JNum n => negb (PrimFloat.eqb (num_value n) 0%float || PrimFloat.is_nan (num_value n))
  | JStr s => negb (String.eqb s "")
  | JArr _ | JObj _ => true
  end.

(** Truthiness of a body field that may be absent ([undefined]). *)
Definition truthy_json (o : option JSON) : bool :=
  match o with Some v => json_truthy v | None => false end.

(** [v ?? d] for a body field that may be absent. *)
Definition nullish (o : option JSON) (d : JSON) : JSON :=
  match o with Some JNull | None => d | Some v => v end.

(* ------------------------------------------------------------------ *)
(** ** Parameter binding of better-sqlite3's [stmt.run(...args)]

    A string binds as TEXT; a number binds as a REAL, which the TEXT
    affinity of every column written here turns into text; [null] binds
    NULL. An array binds each of its elements as one positional
    parameter. A plain object supplies named parameters, which none of
    these statements has, and binds no positional one. A boolean, or an
    array or object inside an array, throws a TypeError; so does a count
    of values that differs from the statement's parameter count. *)

Inductive SqlVal := SqlNull | SqlText (s : string).

Definition bind_value (v : JSON) : option SqlVal :=
  match v with
  | JNull => Some SqlNull
  | JNum n => Some (SqlText (num_text n))
  | JStr s => Some (SqlText s)
  | JBool _ | JArr _ | JObj _ => None
  end.

Fixpoint bind_values (l : list JSON) : option (list SqlVal) :=
  match l with
  | [] => Some []
  | v :: rest =>
      match bind_value v, bind_values rest with
      | Some x, Some xs => Some (x :: xs)
      | _, _ => None
      end
  end.

(** The positional values one argument of [run] binds. *)
Definition bind_arg (v : JSON) : option (list SqlVal) :=
  match v with
  | JArr l => bind_values l
  | JObj _ => Some []
  | _ => match bind_value v with Some x => Some [x] | None => None end
  end.

Fixpoint bind_args (args : list JSON) : option (list SqlVal) :=
  match args with
  | [] => Some []
  | a :: rest =>
      match bind_arg a, bind_args rest with
      | Some xs, Some ys => Some (xs ++ ys)%list
      | _, _ => None
      end
  end.

Definition is_object (v : JSON) : bool :=
  match v with JObj _ => true | _ => false end.

(** The values [run] binds to a statement with [n] positional parameters
    and no named one; [None] when it throws (two objects are refused as
    named parameters given twice). *)
Definition run_params (n : nat) (args : list JSON) : option (list SqlVal) :=
  if Nat.ltb 1 (List.length (List.filter is_object args)) then None else
  match bind_args args with
  | Some vs => if Nat.eqb (List.length vs) n then Some vs else None
  | None => None
  end.

(* ------------------------------------------------------------------ *)
(** ** [Thread] and [Message] objects (schema.ts) *)

(** A [Thread] object as the constructor builds it: [subject] is whatever
    value it was given. *)
Record ThreadObj := mkThreadObj {
  tho_threadId : ThreadId;
  tho_groupId : GroupId;
  tho_subject : JSON;
  tho_createdBy : AgentAddress;
  tho_lastIndex : MessageId
}.

(** A [Message] object as the constructor builds it: [subject] and [body]
    are whatever values it was given. *)
Record MessageObj := mkMessageObj {
  mo_groupId : GroupId;
  mo_threadId : ThreadId;
  mo_messageid : MessageId;
  mo_from : AgentAddress;
  mo_to : list AgentAddress;
  mo_subject : JSON;
  mo_body : JSON
}.

(** [Thread.constructor] with the value of [randomUUID()] as argument. *)
Definition Thread_new (uuid : ThreadId) (groupId : GroupId) (subject : JSON)
    (createdBy : AgentAddress) : ThreadObj :=
  mkThreadObj uuid groupId subject createdBy "0".

(** [Thread.addMessage]: the id list is not stored, only [lastIndex]. *)
Definition Thread_addMessage (t : ThreadObj) (messageId : MessageId) : ThreadObj :=
  mkThreadObj (tho_threadId t) (tho_groupId t) (tho_subject t) (tho_createdBy t) messageId.

(** [Message.constructor]: the message and its [spawnedThread]. *)
Definition Message_new (uuid : ThreadId) (groupId : GroupId) (from : AgentAddress)
    (to : list AgentAddress) (body : JSON) (threadId : option ThreadId)
    (subject : option JSON) : MessageObj * option ThreadObj :=
  let subj := nullish subject (JStr "") in
  match threadId with
  | Some tid =>
      if truthy threadId then
        (mkMessageObj groupId tid "0" from to subj body, None)
      else
        let newThread := Thread_new uuid groupId subj from in
        let mid := tho_lastIndex newThread in
        (mkMessageObj groupId (tho_threadId newThread) mid from to subj body,
         Some (Thread_addMessage newThread mid))
  | None =>
      let newThread := Thread_new uuid groupId subj from in
      let mid := tho_lastIndex newThread in
      (mkMessageObj groupId (tho_threadId newThread) mid from to subj body,
       Some (Thread_addMessage newThread mid))
  end.

(* ------------------------------------------------------------------ *)
(** ** [DatabaseService] (db/service.ts)

    An INSERT that violates a PRIMARY KEY, UNIQUE or FOREIGN KEY
    constraint of db/init.ts throws: [None]. *)

Definition getGroup (s : State) (groupId : GroupId) : option Group :=
  groups s !! groupId.

Definition createGroup (s : State) (g : Group) : option State :=
  match groups s !! g_id g with
  | Some _ => None
  | None => Some (mkState (<[g_id g := g]> (groups s)) (threads s) (messages s))
  end.

Definition getThread (s : State) (threadId : ThreadId) : option Thread :=
  threads s !! threadId.

(** [createThread] once [stmt.run] has bound the row (see [thread_row]
    and [createThread_obj]): the INSERT, refused on a taken primary key or
    a missing group. *)
Definition createThread (s : State) (t : Thread) : option State :=
  match threads s !! t_threadId t, groups s !! t_groupId t with
  | None, Some _ =>
      Some (mkState (groups s) (<[t_threadId t := t]> (threads s)) (messages s))
  | _, _ => None
  end.

Definition updateThreadLastIndex (s : State) (threadId : ThreadId)
    (lastIndex : MessageId) : State :=
  match threads s !! threadId with
  | Some t =>
      mkState (groups s)
        (<[threadId := mkThread (t_threadId t) (t_groupId t) (t_subject t)
                          (t_createdBy t) lastIndex]> (threads s))
        (messages s)
  | None => s
  end.

Definition same_key (threadId : ThreadId) (messageId : MessageId) (m : Message) : bool :=
  String.eqb (m_threadId m) threadId && String.eqb (m_messageid m) messageId.

(** [getMessage]: [stmt.get] returns the first matching row. *)
Definition getMessage (s : State) (threadId : ThreadId) (messageId : MessageId)
    : option Message :=
  List.find (same_key threadId messageId) (messages s).

(** [createMessage] once [stmt.run] has bound the row (see [message_row]
    and [createMessage_obj]): INSERT (UNIQUE(thread_id, message_id) and
    the foreign keys), then [updateThreadLastIndex] when [threadId] is
    truthy. *)
Definition createMessage (s : State) (m : Message) : option State :=
  match getMessage s (m_threadId m) (m_messageid m),
        threads s !! m_threadId m, groups s !! m_groupId m with
  | None, Some _, Some _ =>
      let s1 := mkState (groups s) (threads s) (messages s ++ [m]) in
      Some (if truthy (Some (m_threadId m))
            then updateThreadLastIndex s1 (m_threadId m) (m_messageid m)
            else s1)
  | _, _, _ => None
  end.

(** [thread.createdAt] and [message.createdAt]: ISO timestamp strings,
    whose text the model does not track; each binds one TEXT value. *)
Definition createdAt_json : JSON := JStr "".

(** [JSON.stringify(message.to)]: a string, binding one TEXT value; the
    row keeps [to] as the list, which [JSON.parse] gives back. *)
Definition to_agents_json (to : list AgentAddress) : JSON := JStr "".

(** The row the INSERT of [createThread] writes; [None] when [stmt.run]
    throws, on binding or because a NOT NULL column gets NULL. *)
Definition thread_row (t : ThreadObj) : option Thread :=
  match run_params 6 [JStr (tho_threadId t); JStr (tho_groupId t); tho_subject t;
                      createdAt_json; JStr (tho_createdBy t); JStr (tho_lastIndex t)] with
  | Some [_; _; SqlText subject; _; _; _] =>
      Some (mkThread (tho_threadId t) (tho_groupId t) subject (tho_createdBy t)
              (tho_lastIndex t))
  | _ => None
  end.

(** The row the INSERT of [createMessage] writes, with
    [message.subject || ""] as subject; [None] when [stmt.run] throws.
    [subject] is the one nullable column: a NULL subject reads back as
    [""] ([row.subject || undefined], then the constructor's [?? ""]),
    which is what the row keeps. *)
Definition message_row (m : MessageObj) : option Message :=
  let subject := if json_truthy (mo_subject m) then mo_subject m else JStr "" in
  match run_params 8 [JStr (mo_messageid m); JStr (mo_threadId m); JStr (mo_groupId m);
                      JStr (mo_from m); to_agents_json (mo_to m); subject; mo_body m;
                      createdAt_json] with
  | Some [_; _; _; _; _; subj; SqlText body; _] =>
      Some (mkMessage (mo_groupId m) (mo_threadId m) (mo_messageid m) (mo_from m) (mo_to m)
              (match subj with SqlText x => x | SqlNull => "" end) body)
  | _ => None
  end.

(** [DatabaseService.createThread(thread)]: binding, then the INSERT. *)
Definition createThread_obj (s : State) (t : ThreadObj) : option State :=
  match thread_row t with Some r => createThread s r | None => None end.

(** [DatabaseService.createMessage(message)]: binding, then the INSERT and
    the update of [lastIndex]. *)
Definition createMessage_obj (s : State) (m : MessageObj) : option State :=
  match message_row m with Some r => createMessage s r | None => None end.

(** [listMessagesByThread]: rows of the thread by ascending [id], each
    re-read with [getMessage], nulls filtered out. *)
Definition listMessagesByThread (s : State) (threadId : ThreadId) : list Message :=
  omap (fun r => getMessage s threadId (m_messageid r))
    (List.filter (fun r => String.eqb (m_threadId r) threadId) (messages s)).

(** [findMessagesById]: rows with that [message_id] (and [group_id] when
    [groupId] is truthy), by descending [id], re-read with [getMessage]. *)
Definition findMessagesById (s : State) (messageId : MessageId)
    (groupId : option GroupId) : list Message :=
  omap (fun r => getMessage s (m_threadId r) (m_messageid r))
    (rev (List.filter (fun r => String.eqb (m_messageid r) messageId &&
                           (if truthy groupId
                            then String.eqb (m_groupId r) (default "" groupId)
                            else true)) (messages s))).

Definition deleteAll (_ : State) : State := empty_state.

(* ------------------------------------------------------------------ *)
(** ** Helpers of app.ts *)

Definition nextMessageId (thread : Thread) : string :=
  match parseInt10 (t_lastIndex thread) with
  | None => "0"
  | Some z => js_string_of_Z (Z.add z 1)
  end.

(** [ensureGroup]: get-or-create with an empty roster. *)
Definition ensureGroup (s : State) (groupId : GroupId) : Group * State :=
  match getGroup s groupId with
  | Some g => (g, s)
  | None =>
      let g := mkGroup groupId [] in
      match createGroup s g with Some s' => (g, s') | None => (g, s) end
  end.

(** The [to] field of a request body: an array or a single string. *)
Inductive ToField :=
| ToList (l : list string)
| ToStr (s : string).

Definition to_truthy (o : option ToField) : bool :=
  match o with
  | Some (ToList _) => true
  | Some (ToStr s) => negb (String.eqb s "")
  | None => false
  end.

Definition normalizeRecipients (raw : option ToField) : list string :=
  match raw with
  | Some (ToList l) => map trim (List.filter (fun v => negb (String.eqb (trim v) "")) l)
  | Some (ToStr s) => if negb (String.eqb (trim s) "") then [trim s] else []
  | None => []
  end.

Definition elem_b (x : string) (l : list string) : bool :=
  existsb (String.eqb x) l.

(** [validateAgents]: the invalid agents (valid iff the list is empty). *)
Definition validateAgents (agents : list string) (g : Group) : list string :=
  List.filter (fun a => negb (elem_b a (g_agents g))) agents.

(* ------------------------------------------------------------------ *)
(** ** Responses *)

Inductive BadRequest :=
| MissingFields
| EmptyRecipients
| InvalidSender (from : string)
| InvalidRecipients (invalid : list string)
| WrongGroup
| NoValidRecipients
| Ambiguous (locations : list (ThreadId * GroupId)).

Inductive NotFound :=
| GroupNotFound
| ThreadNotFound
| TargetNotFound
| MessageNotFound.

Inductive Response :=
| R201 (messageId : MessageId) (threadId : ThreadId) (newThreadCreated : bool)
| R200 (m : Message)
| R400 (why : BadRequest)
| R404 (what : NotFound)
| R500.

(* ------------------------------------------------------------------ *)
(** ** Request handlers of [createApp] (app.ts) *)

Record WriteReq := mkWriteReq {
  w_groupId : option GroupId;
  w_from : option AgentAddress;
  w_to : option ToField;
  w_subject : option JSON;
  w_body : option JSON
}.

(** [POST /emails/write]; [uuid] is the value [randomUUID()] returns. *)
Definition write (s : State) (req : WriteReq) (uuid : ThreadId) : Response * State :=
  if negb (truthy (w_groupId req)) || negb (truthy (w_from req)) ||
     negb (to_truthy (w_to req)) || negb (truthy_json (w_body req))
  then (R400 MissingFields, s) else
  let groupId := default "" (w_groupId req) in
  let from := default "" (w_from req) in
  (* present: it passed the check above *)
  let body := default JNull (w_body req) in
  let recipients := normalizeRecipients (w_to req) in
  match recipients with
  | [] => (R400 EmptyRecipients, s)
  | _ =>
    let '(group, s1) := ensureGroup s groupId in
    if negb (elem_b from (g_agents group)) then (R400 (InvalidSender from), s1) else
    match validateAgents recipients group with
    | _ :: _ as invalid => (R400 (InvalidRecipients invalid), s1)
    | [] =>
      let subject := nullish (w_subject req) (JStr DEFAULT_SUBJECT) in
      let '(message, spawnedThread) :=
        Message_new uuid groupId from recipients body None (Some subject) in
      match spawnedThread with
      | None => (R500, s1)
      | Some thread =>
        match createThread_obj s1 thread with
        | None => (R500, s1)
        | Some s2 =>
          match createMessage_obj s2 message with
          | None => (R500, s2)
          | Some s3 => (R201 (mo_messageid message) (mo_threadId message) true, s3)
          end
        end
      end
    end
  end.

Record ReplyReq := mkReplyReq {
  r_groupId : option GroupId;
  r_threadId : option ThreadId;
  r_replyToMessageId : option MessageId;
  r_from : option AgentAddress;
  r_body : option JSON
}.

(** Lines 228-263 (and 313-348) of [POST /emails/reply] and
    [POST /emails/reply-all]: field, thread, group and sender checks. *)
Definition reply_checks (s : State) (req : ReplyReq) : (Response * State) + (Thread * State) :=
  if negb (truthy (r_from req)) || negb (truthy (r_threadId req)) ||
     negb (truthy_json (r_body req))
  then inl (R400 MissingFields, s) else
  let threadId := default "" (r_threadId req) in
  let from := default "" (r_from req) in
  match getThread s threadId with
  | None => inl (R404 ThreadNotFound, s)
  | Some thread =>
    if truthy (r_groupId req) &&
       negb (String.eqb (default "" (r_groupId req)) (t_groupId thread))
    then inl (R400 WrongGroup, s) else
    let '(group, s1) := ensureGroup s (t_groupId thread) in
    if negb (elem_b from (g_agents group)) then inl (R400 (InvalidSender from), s1)
    else inr (thread, s1)
  end.

(** Lines 265-267: the message replied to. *)
Definition resolve_target (s : State) (threadId : ThreadId)
    (replyToMessageId : option MessageId) : option Message :=
  if truthy replyToMessageId
  then getMessage s threadId (default "" replyToMessageId)
  else last (listMessagesByThread s threadId).

(** Lines 228-275: checks, then target resolution. *)
Definition resolve_reply (s : State) (req : ReplyReq)
    : (Response * State) + (Thread * State * Message) :=
  match reply_checks s req with
  | inl r => inl r
  | inr (thread, s1) =>
    match resolve_target s1 (default "" (r_threadId req)) (r_replyToMessageId req) with
    | None => inl (R404 TargetNotFound, s1)
    | Some target => inr (thread, s1, target)
    end
  end.

(** Line 277: [[targetMessage.from].filter(addr => addr !== from)]. *)
Definition reply_recipients (target : Message) (from : AgentAddress) : list AgentAddress :=
  List.filter (fun addr => negb (String.eqb addr from)) [m_from target].

(** [Set.prototype.add] and [Set.prototype.delete] on an insertion-ordered
    set of strings. *)
Definition set_add (x : string) (l : list string) : list string :=
  if elem_b x l then l else l ++ [x].
Definition set_delete (x : string) (l : list string) : list string :=
  List.filter (fun y => negb (String.eqb y x)) l.

(** Lines 362-366. *)
Definition reply_all_recipients (target : Message) (from : AgentAddress) : list AgentAddress :=
  let recipientSet := set_add (m_from target) [] in
  let recipientSet := fold_left (fun acc addr => set_add addr acc) (m_to target) recipientSet in
  set_delete from recipientSet.

Definition with_messageid (m : MessageObj) (mid : MessageId) : MessageObj :=
  mkMessageObj (mo_groupId m) (mo_threadId m) mid (mo_from m) (mo_to m) (mo_subject m) (mo_body m).

(** Lines 278-299 (and 368-389): empty check, subject, id, insertion.
    The constructor is called with a [threadId], so it draws no UUID. *)
Definition send_reply (s1 : State) (req : ReplyReq) (thread : Thread)
    (recipients : list AgentAddress) : Response * State :=
  match recipients with
  | [] => (R400 NoValidRecipients, s1)
  | _ =>
    let threadId := default "" (r_threadId req) in
    let from := default "" (r_from req) in
    let body := default JNull (r_body req) in
    let subject := replySubject (t_subject thread) in
    let message :=
      with_messageid
        (fst (Message_new "" (t_groupId thread) from recipients body (Some threadId)
                (Some (JStr subject))))
        (nextMessageId thread) in
    match createMessage_obj s1 message with
    | None => (R500, s1)
    | Some s2 => (R201 (mo_messageid message) (mo_threadId message) false, s2)
    end
  end.

(** [POST /emails/reply] *)
Definition reply (s : State) (req : ReplyReq) : Response * State :=
  match resolve_reply s req with
  | inl r => r
  | inr (thread, s1, target) =>
    send_reply s1 req thread (reply_recipients target (default "" (r_from req)))
  end.

(** [POST /emails/reply-all] *)
Definition reply_all (s : State) (req : ReplyReq) : Response * State :=
  match resolve_reply s req with
  | inl r => r
  | inr (thread, s1, target) =>
    send_reply s1 req thread (reply_all_recipients target (default "" (r_from req)))
  end.

(** [GET /messages/:messageId] (read only). *)
Definition get_message (s : State) (messageId : MessageId)
    (threadId groupId : option string) : Response :=
  if truthy groupId && bool_decide (getGroup s (default "" groupId) = None)
  then R404 GroupNotFound else
  if truthy threadId then
    match getMessage s (default "" threadId) messageId with
    | None => R404 MessageNotFound
    | Some m => R200 m
    end
  else
    match findMessagesById s messageId groupId with
    | [] => R404 MessageNotFound
    | [m] => R200 m
    | matches => R400 (Ambiguous (map (fun m => (m_threadId m, m_groupId m)) matches))
    end.

(** The setup wizard's [createGroup] (config/initWizard.ts). *)
Definition wizard_create (s : State) (groupId : GroupId) (agents : list AgentAddress) : State :=
  match createGroup s (mkGroup groupId agents) with Some s' => s' | None => s end.

(** The store transitions of the server: the three writing endpoints, the
    wizard and [POST /admin/reset]; the GET endpoints do not write. *)
Inductive step : State -> State -> Prop :=
| step_write s req uuid : step s (snd (write s req uuid))
| step_reply s req : step s (snd (reply s req))
| step_reply_all s req : step s (snd (reply_all s req))
| step_wizard s g agents : step s (wizard_create s g agents)
| step_reset s : step s (deleteAll s).

Inductive reachable : State -> Prop :=
| reachable_init : reachable empty_state
| reachable_step s s' : reachable s -> step s s' -> reachable s'.

(* A small scenario: group @g with alice, bob and carol. *)
Definition s_g : State := wizard_create empty_state "@g" ["alice"; "bob"; "carol"].
Definition req_hi : WriteReq :=
  mkWriteReq (Some "@g") (Some "alice") (Some (ToList ["bob"])) (Some (JStr "Hi")) (Some (JStr "hello")).
Definition s_hi : State := snd (write s_g req_hi "t1").
Definition req_bob : ReplyReq := mkReplyReq None (Some "t1") None (Some "bob") (Some (JStr "hey")).

Example scenario_write : fst (write s_g req_hi "t1") = R201 "0" "t1" true.
Proof. reflexivity. Qed.
Example scenario_reply : fst (reply s_hi req_bob) = R201 "1" "t1" false.
Proof. reflexivity. Qed.
Example scenario_reply_subject :
  option_map m_subject (last (messages (snd (reply s_hi req_bob)))) = Some "Re: Hi".
Proof. reflexivity. Qed.

(* ------------------------------------------------------------------ *)
(** ** Read side: the remaining queries of [DatabaseService] and the GET
    endpoints of [createApp] *)

Definition DEFAULT_LIMIT : Z := 10.
Definition BODY_PREVIEW_LENGTH : nat := 500.

(** [parseLimit (raw, fallback)], given [Number(raw)]: [Some z] when it is
    the integer [z], [None] when it is NaN, infinite or not integral. *)
Definition parseLimit (parsed : option Z) (fallback : Z) : Z :=
  match parsed with
  | Some z => if Z.ltb 0 z then z else fallback
  | None => fallback
  end.

(** [typeof limit === "number" && limit > 0 ? ... LIMIT ? : ...] *)
Definition sql_limit (limit : option Z) (rows : list Message) : list Message :=
  match limit with
  | Some n => if Z.ltb 0 n then firstn (Z.to_nat n) rows else rows
  | None => rows
  end.

(** [AND group_id = ?] when [groupId] is truthy. *)
Definition group_filter (groupId : option GroupId) (r : Message) : bool :=
  if truthy groupId then String.eqb (m_groupId r) (default "" groupId) else true.

(** [listMessagesByGroup]: rows of the group by descending [id], at most
    [limit] of them, re-read with [getMessage]. *)
Definition listMessagesByGroup (s : State) (groupId : GroupId) (limit : option Z)
    : list Message :=
  omap (fun r => getMessage s (m_threadId r) (m_messageid r))
    (sql_limit limit (rev (List.filter (fun r => String.eqb (m_groupId r) groupId)
                             (messages s)))).

(** [listMessagesByAgent]: rows sent by [agent]. *)
Definition listMessagesByAgent (s : State) (agent : AgentAddress)
    (groupId : option GroupId) (limit : option Z) : list Message :=
  omap (fun r => getMessage s (m_threadId r) (m_messageid r))
    (sql_limit limit (rev (List.filter (fun r => String.eqb (m_from r) agent &&
                                                 group_filter groupId r)
                             (messages s)))).

(** The join [messages m, json_each(m.to_agents)] restricted to
    [json_each.value = agent]: a row once per occurrence of [agent] among
    its recipients. *)
Definition join_to (agent : AgentAddress) (rows : list Message) : list Message :=
  flat_map (fun r => map (fun _ => r) (List.filter (String.eqb agent) (m_to r))) rows.

(** [SELECT DISTINCT m.thread_id, m.message_id]: the first row of each
    pair, [seen] holding the pairs already output. *)
Fixpoint distinct_keys (seen : list (ThreadId * MessageId)) (rows : list Message)
    : list Message :=
  match rows with
  | [] => []
  | r :: rest =>
      if existsb (fun p => same_key (fst p) (snd p) r) seen
      then distinct_keys seen rest
      else r :: distinct_keys ((m_threadId r, m_messageid r) :: seen) rest
  end.

(** [listMessagesForAgent]: the rows where [agent] is a recipient. *)
Definition listMessagesForAgent (s : State) (agent : AgentAddress)
    (groupId : option GroupId) (limit : option Z) : list Message :=
  omap (fun r => getMessage s (m_threadId r) (m_messageid r))
    (sql_limit limit
       (distinct_keys [] (join_to agent (rev (List.filter (group_filter groupId)
                                                 (messages s)))))).

(** [listGroups]: [SELECT id FROM groups] (no ORDER BY: the order of the
    rows is not modelled), each re-read with [getGroup], which builds the
    group from the row's [id] and [agents]. *)
Definition listGroups (s : State) : list Group :=
  omap (fun id => option_map (fun g => mkGroup id (g_agents g)) (getGroup s id))
    (map fst (map_to_list (groups s))).

Inductive GroupError :=
| GroupIdNotFound (groupId : GroupId)
| NoGroups
| MultipleGroups.

(** [resolveGroupId]: [groupId] is the query parameter when it is a
    string. [inl] is the error response, [inr] the group id returned. *)
Definition resolveGroupId (s : State) (groupId : option GroupId) : GroupError + GroupId :=
  if truthy groupId then
    match getGroup s (default "" groupId) with
    | None => inl (GroupIdNotFound (default "" groupId))
    | Some _ => inr (default "" groupId)
    end
  else
    match listGroups s with
    | [] => inl NoGroups
    | [g] => inr (g_id g)
    | _ => inl MultipleGroups
    end.

(** [serializeShortMessage] ([createdAt] is not modelled). *)
Record ShortMessage := mkShortMessage {
  sm_messageId : MessageId;
  sm_threadId : ThreadId;
  sm_groupId : GroupId;
  sm_from : AgentAddress;
  sm_subject : string;
  sm_bodyPreview : string
}.

Definition serializeShortMessage (m : Message) : ShortMessage :=
  mkShortMessage (m_messageid m) (m_threadId m) (m_groupId m) (m_from m) (m_subject m)
    (substring 0 BODY_PREVIEW_LENGTH (m_body m)).

(** [GET /inbox] up to serialisation ([serializeMessage] copies the fields
    of the message). [parsedLimit] is [Number(numOfRecentEmails ?? limit)]
    as for [parseLimit]; [agentAddress] and [groupId] are the query
    parameters when they are strings. [None]: the handler returns without
    answering, as it does when [resolveGroupId] yields a falsy id. *)
Definition inbox (s : State) (parsedLimit : option Z)
    (agentAddress groupId : option string) : option (GroupError + list Message) :=
  let limit := parseLimit parsedLimit DEFAULT_LIMIT in
  match resolveGroupId s groupId with
  | inl e => Some (inl e)
  | inr g =>
    if negb (truthy (Some g)) then None else
    Some (inr (if truthy agentAddress
               then listMessagesForAgent s (default "" agentAddress) (Some g) (Some limit)
               else listMessagesByGroup s g (Some limit)))
  end.

(** [GET /inbox/short] *)
Definition inbox_short (s : State) (parsedLimit : option Z)
    (agentAddress groupId : option string) : option (GroupError + list ShortMessage) :=
  match inbox s parsedLimit agentAddress groupId with
  | Some (inr l) => Some (inr (map serializeShortMessage l))
  | Some (inl e) => Some (inl e)
  | None => None
  end.

(** The [messages] list [getThread] loads: the ids of the thread's rows
    by ascending [id]. *)
Definition getThread_messages (s : State) (threadId : ThreadId) : list MessageId :=
  map m_messageid (List.filter (fun r => String.eqb (m_threadId r) threadId) (messages s)).

(** [GET /threads/:threadId]: [None] is the 404. *)
Definition get_thread (s : State) (threadId : ThreadId)
    : option (Thread * list MessageId * list Message) :=
  match getThread s threadId with
  | None => None
  | Some th => Some (th, getThread_messages s threadId, listMessagesByThread s threadId)
  end.

(* ================================================================== *)
(** * Properties *)

(** The text a value binds to when it fills exactly one parameter with a
    non-NULL value; [None] otherwise. *)
Definition binds_text (v : JSON) : option string :=
  match bind_arg v with Some [SqlText x] => Some x | _ => None end.


(* ------------------------------------------------------------------ *)
(** ** Reply subject *)

(** A string is blank when every code unit is whitespace. *)
Definition blank (s : string) : Prop :=
  Forall (fun c => is_ws c = true) (list_ascii_of_string s).

(** The subject starts with [re:] in any letter case. *)
Definition has_re_prefix (t : string) : Prop :=
  exists a b rest, t = String a (String b (String ":" rest)) /\
    (a = "r" \/ a = "R")%char /\ (b = "e" \/ b = "E")%char.

Lemma trim_end_empty_iff s : trim_end s = "" <-> blank s.
Proof.
  unfold blank. induction s as [|c r IH]; simpl.
  - split; auto.
  - destruct (String.eqb_spec (trim_end r) "") as [E|E];
      destruct (is_ws c) eqn:W; simpl.
    + split; auto. intros _. constructor; [done|]. by apply IH.
    + split; [discriminate|]. intros H. inversion H; congruence.
    + split; [discriminate|]. intros H. inversion H; subst. exfalso. apply E, IH; done.
    + split; [discriminate|]. intros H. inversion H; congruence.
Qed.

Lemma trim_start_shape s :
  trim_start s = "" \/ exists c r, trim_start s = String c r /\ is_ws c = false.
Proof.
  induction s as [|c r IH]; simpl; [by left|].
  destruct (is_ws c) eqn:W; [done|]. right. eauto.
Qed.

Lemma trim_start_blank s : blank (trim_start s) <-> blank s.
Proof.
  unfold blank. induction s as [|c r IH]; simpl; [done|].
  destruct (is_ws c) eqn:W.
  - rewrite IH. split; [intros; by constructor|]. intros H; by inversion H.
  - simpl. done.
Qed.

Lemma trim_empty_iff s : trim s = "" <-> blank s.
Proof. unfold trim. rewrite trim_end_empty_iff. apply trim_start_blank. Qed.

Lemma trim_end_idem s : trim_end (trim_end s) = trim_end s.
Proof.
  induction s as [|c r IH]; simpl; [done|].
  destruct (String.eqb (trim_end r) "" && is_ws c) eqn:E; [done|].
  simpl. rewrite IH, E. done.
Qed.

(** [trim_end] keeps a first code unit that is not whitespace. *)
Lemma trim_end_cons_nonws c r :
  is_ws c = false -> trim_end (String c r) = String c (trim_end r).
Proof. intros W. simpl. rewrite W, andb_false_r. done. Qed.

Lemma trim_end_cons_nonempty c r :
  trim_end r <> "" -> trim_end (String c r) = String c (trim_end r).
Proof.
  intros N. simpl. destruct (String.eqb_spec (trim_end r) "") as [E|E]; done.
Qed.

Lemma trim_idem s : trim (trim s) = trim s.
Proof.
  unfold trim. destruct (trim_start_shape s) as [E|(c & r & E & W)].
  - rewrite E. done.
  - rewrite E, trim_end_cons_nonws by done. simpl. rewrite W.
    rewrite <- trim_end_cons_nonws by done. apply trim_end_idem.
Qed.

Lemma trim_re_append t :
  trim t = t -> t <> "" -> trim (String.append "Re: " t) = String.append "Re: " t.
Proof.
  intros T N. unfold trim in *.
  assert (Et : trim_end t = t).
  { destruct (trim_start_shape t) as [E|(c & r & E & W)].
    - rewrite E in T. simpl in T. congruence.
    - rewrite <- T at 1. rewrite trim_end_idem. done. }
  change (trim_end (String "R" (String "e" (String ":" (String " " t))))
          = String "R" (String "e" (String ":" (String " " t)))).
  rewrite (trim_end_cons_nonws "R"), (trim_end_cons_nonws "e"),
    (trim_end_cons_nonws ":") by reflexivity.
  rewrite trim_end_cons_nonempty, Et; congruence.
Qed.

Lemma re_prefix_test_spec t : re_prefix_test t = true <-> has_re_prefix t.
Proof.
  unfold has_re_prefix. split.
  - destruct t as [|a [|b [|c rest]]]; simpl; try discriminate.
    intros H. apply andb_prop in H as [H Hc]. apply andb_prop in H as [Ha Hb].
    apply Ascii.eqb_eq in Hc. subst c. exists a, b, rest. split; [done|].
    apply orb_prop in Ha, Hb.
    destruct Ha as [Ha|Ha], Hb as [Hb|Hb]; apply Ascii.eqb_eq in Ha, Hb; auto.
  - intros (a & b & rest & -> & Ha & Hb).
    destruct Ha as [->| ->], Hb as [->| ->]; reflexivity.
Qed.

Lemma replySubject_guard s :
  (String.eqb s "" || String.eqb (trim s) "") = true <-> blank s.
Proof.
  rewrite orb_true_iff, !String.eqb_eq, trim_empty_iff.
  split; [|by right]. intros [->|H]; [constructor|done].
Qed.

(** C5: [replySubject] of an empty or blank subject is ["Re: No subject"];
    of a non-blank subject whose trimmed form starts with [re:] in any
    letter case it is the trimmed subject; otherwise it is ["Re: "]
    followed by the trimmed subject. *)
Theorem replySubject_spec (s : string) :
  (blank s -> replySubject s = "Re: No subject") /\
  (~ blank s -> has_re_prefix (trim s) -> replySubject s = trim s) /\
  (~ blank s -> ~ has_re_prefix (trim s) ->
     replySubject s = String.append "Re: " (trim s)).
Proof.
  unfold replySubject. rewrite <- re_prefix_test_spec.
  destruct (String.eqb s "" || String.eqb (trim s) "") eqn:G.
  - apply replySubject_guard in G. split; [done|]. split; intros NB; done.
  - split; [intros B; apply replySubject_guard in B; congruence|].
    split; intros _ P; [by rewrite P|].
    destruct (re_prefix_test (trim s)); done.
Qed.

(** C10: [replySubject] is idempotent. *)
Theorem replySubject_idempotent (s : string) :
  replySubject (replySubject s) = replySubject s.
Proof.
  unfold replySubject at 2 3.
  destruct (String.eqb s "" || String.eqb (trim s) "") eqn:G; [reflexivity|].
  assert (NE : trim s <> "").
  { intros E. rewrite E in G. rewrite orb_true_r in G. discriminate. }
  assert (Gt : forall u, trim u = u -> u <> "" ->
                 (String.eqb u "" || String.eqb (trim u) "") = false).
  { intros u Tu Nu. rewrite Tu. apply orb_false_iff.
    split; apply String.eqb_neq; done. }
  destruct (re_prefix_test (trim s)) eqn:P; unfold replySubject.
  - rewrite Gt by (apply trim_idem || done). rewrite trim_idem, P. done.
  - rewrite Gt; [|apply trim_re_append; [apply trim_idem|done]|discriminate].
    rewrite trim_re_append by (apply trim_idem || done). reflexivity.
Qed.

(* ------------------------------------------------------------------ *)
(** ** Decimal identifiers *)

Lemma digits_prefix_uint d : digits_prefix (uint_to_string d) = d.
Proof. induction d; simpl; rewrite ?IHd; reflexivity. Qed.

Lemma to_uint_not_nil n : N.to_uint n <> Decimal.Nil.
Proof.
  intros E. pose proof (DecimalN.Unsigned.of_to n) as R.
  rewrite E in R. simpl in R. subst n. discriminate.
Qed.

Lemma parseInt10_uint d :
  d <> Decimal.Nil -> parseInt10 (uint_to_string d) = Some (Z.of_N (N.of_uint d)).
Proof.
  intros Hd. destruct d; [done|..]; unfold parseInt10; simpl;
    rewrite digits_prefix_uint; reflexivity.
Qed.

Lemma parseInt10_str_N n : parseInt10 (str_N n) = Some (Z.of_N n).
Proof.
  unfold str_N. rewrite parseInt10_uint by apply to_uint_not_nil.
  rewrite DecimalN.Unsigned.of_to. done.
Qed.

Lemma str_N_inj n m : str_N n = str_N m -> n = m.
Proof.
  intros E. apply (f_equal parseInt10) in E. rewrite !parseInt10_str_N in E.
  injection E. lia.
Qed.

Lemma str_nat_inj i j : str_nat i = str_nat j -> i = j.
Proof. unfold str_nat. intros E. apply str_N_inj in E. lia. Qed.

Lemma nextMessageId_str_nat th k :
  t_lastIndex th = str_nat k -> nextMessageId th = str_nat (S k).
Proof.
  intros E. unfold nextMessageId. rewrite E. unfold str_nat.
  rewrite parseInt10_str_N. unfold js_string_of_Z.
  replace (Z.ltb (Z.of_N (N.of_nat k) + 1) 0) with false by (symmetry; apply Z.ltb_ge; lia).
  f_equal. lia.
Qed.

(* ------------------------------------------------------------------ *)
(** ** Store lemmas *)

Definition key (m : Message) : ThreadId * MessageId := (m_threadId m, m_messageid m).

(** The rows of a thread, in insertion order. *)
Definition thread_rows (s : State) (threadId : ThreadId) : list Message :=
  List.filter (fun r => String.eqb (m_threadId r) threadId) (messages s).

Lemma same_key_true t i m : same_key t i m = true <-> key m = (t, i).
Proof.
  unfold same_key, key. rewrite andb_true_iff, !String.eqb_eq.
  split; [intros [-> ->]; done|]. intros E. injection E. done.
Qed.

Lemma find_key l r :
  NoDup (map key l) -> In r l -> List.find (same_key (m_threadId r) (m_messageid r)) l = Some r.
Proof.
  induction l as [|x l IH]; simpl; [done|].
  intros ND [->|Hin]; apply NoDup_cons in ND as [NIn ND].
  - replace (same_key (m_threadId r) (m_messageid r) r) with true
      by (symmetry; by apply same_key_true). done.
  - destruct (same_key (m_threadId r) (m_messageid r) x) eqn:E; [|by apply IH].
    exfalso. apply same_key_true in E. apply NIn. rewrite E.
    change (m_threadId r, m_messageid r) with (key r).
    apply list_elem_of_In, in_map, Hin.
Qed.

Lemma getMessage_None_notin s t i :
  getMessage s t i = None -> forall r, In r (messages s) -> key r <> (t, i).
Proof.
  intros E r Hin Hk. apply (find_none _ _ E) in Hin. apply same_key_true in Hk. congruence.
Qed.

Lemma omap_id_on (f : Message -> option Message) l :
  (forall x, In x l -> f x = Some x) -> omap f l = l.
Proof.
  induction l as [|x l IH]; simpl; [done|]. intros H.
  rewrite (H x (or_introl eq_refl)). f_equal. apply IH. auto.
Qed.

Lemma listMessagesByThread_rows s tid :
  NoDup (map key (messages s)) -> listMessagesByThread s tid = thread_rows s tid.
Proof.
  intros ND. unfold listMessagesByThread, thread_rows. apply omap_id_on.
  intros r Hin. apply filter_In in Hin as [Hin Ht]. apply String.eqb_eq in Ht.
  unfold getMessage. rewrite <- Ht. by apply find_key.
Qed.

Lemma ensureGroup_cases s g :
  ensureGroup s g = (default (mkGroup g []) (groups s !! g), s) /\ is_Some (groups s !! g) \/
  ensureGroup s g = (mkGroup g [],
                     mkState (<[g := mkGroup g []]> (groups s)) (threads s) (messages s)) /\
  groups s !! g = None.
Proof.
  unfold ensureGroup, getGroup, createGroup. simpl.
  destruct (groups s !! g) eqn:E; [left; by split|right; by split].
Qed.

(** What [ensureGroup] commits: at most the group it names. *)
Lemma ensureGroup_state s g grp s1 :
  ensureGroup s g = (grp, s1) ->
  threads s1 = threads s /\ messages s1 = messages s /\
  groups s1 !! g = Some grp /\
  (groups s1 = groups s \/
   groups s !! g = None /\ groups s1 = <[g := mkGroup g []]> (groups s)).
Proof.
  intros E. destruct (ensureGroup_cases s g) as [[E' [x Hx]]|[E' Hn]];
    rewrite E' in E; injection E as <- <-; simpl.
  - rewrite Hx. auto.
  - rewrite lookup_insert_eq. auto 10.
Qed.

Lemma createMessage_Some s m s' :
  createMessage s m = Some s' ->
  getMessage s (m_threadId m) (m_messageid m) = None /\
  is_Some (groups s !! m_groupId m) /\
  groups s' = groups s /\ messages s' = (messages s ++ [m])%list /\
  exists t, threads s !! m_threadId m = Some t /\
    threads s' = if truthy (Some (m_threadId m))
                 then <[m_threadId m := mkThread (t_threadId t) (t_groupId t)
                          (t_subject t) (t_createdBy t) (m_messageid m)]> (threads s)
                 else threads s.
Proof.
  unfold createMessage.
  destruct (getMessage s _ _) eqn:G; [discriminate|].
  destruct (threads s !! m_threadId m) as [t|] eqn:T; [|discriminate].
  destruct (groups s !! m_groupId m) eqn:Gr; [|discriminate].
  intros E. injection E as <-.
  unfold truthy, updateThreadLastIndex.
  destruct (String.eqb (m_threadId m) ""); simpl; rewrite ?T; simpl; eauto 10.
Qed.

Lemma createThread_Some s t s' :
  createThread s t = Some s' ->
  threads s !! t_threadId t = None /\ is_Some (groups s !! t_groupId t) /\
  groups s' = groups s /\ messages s' = messages s /\
  threads s' = <[t_threadId t := t]> (threads s).
Proof.
  unfold createThread.
  destruct (threads s !! t_threadId t) eqn:T; [discriminate|].
  destruct (groups s !! t_groupId t) eqn:G; [|discriminate].
  intros E. injection E as <-. simpl. eauto 10.
Qed.

(* ------------------------------------------------------------------ *)
(** ** The store invariant *)

Definition refs_ok (s : State) : Prop :=
  forall r, In r (messages s) ->
    is_Some (threads s !! m_threadId r) /\ is_Some (groups s !! m_groupId r).

(** The ids of a thread's rows are ["0"], ..., [String(n - 1)], and its
    [lastIndex] is the last of them, or ["0"] when it has none. *)
Definition seq_ok (s : State) (tid : ThreadId) (th : Thread) : Prop :=
  exists n, map m_messageid (thread_rows s tid) = map str_nat (seq 0 n) /\
            t_lastIndex th = str_nat (Nat.pred n).

Record Inv (s : State) : Prop := {
  inv_keys : NoDup (map key (messages s));
  inv_refs : refs_ok s;
  inv_seq : forall tid th, threads s !! tid = Some th -> seq_ok s tid th
}.

Lemma Inv_empty : Inv empty_state.
Proof.
  split; simpl.
  - constructor.
  - intros r [].
  - intros tid th H. rewrite lookup_empty in H. discriminate.
Qed.

Lemma thread_rows_frame s s' tid :
  messages s' = messages s -> thread_rows s' tid = thread_rows s tid.
Proof. unfold thread_rows. intros ->. done. Qed.

Lemma Inv_groups_grow s s' :
  Inv s -> threads s' = threads s -> messages s' = messages s ->
  (forall g, is_Some (groups s !! g) -> is_Some (groups s' !! g)) -> Inv s'.
Proof.
  intros [K R S] Ht Hm Hg. split.
  - by rewrite Hm.
  - intros r Hin. rewrite Hm in Hin. destruct (R r Hin). rewrite Ht. auto.
  - intros tid th Hth. rewrite Ht in Hth. destruct (S tid th Hth) as (k & E & L).
    exists k. rewrite (thread_rows_frame s s' tid Hm). auto.
Qed.

Lemma Inv_ensureGroup s g grp s1 : Inv s -> ensureGroup s g = (grp, s1) -> Inv s1.
Proof.
  intros I E. apply ensureGroup_state in E as (Ht & Hm & _ & Hg).
  apply (Inv_groups_grow s); auto. intros g' Hs.
  destruct Hg as [-> | [_ ->]]; [done|].
  destruct (decide (g' = g)) as [->|N]; [by rewrite lookup_insert_eq|].
  by rewrite lookup_insert_ne.
Qed.

Lemma Inv_wizard s g agents : Inv s -> Inv (wizard_create s g agents).
Proof.
  intros I. unfold wizard_create, createGroup. simpl.
  destruct (groups s !! g) eqn:E; [done|].
  apply (Inv_groups_grow s); auto. intros g' Hs. simpl.
  destruct (decide (g' = g)) as [->|N]; [by rewrite lookup_insert_eq|].
  by rewrite lookup_insert_ne.
Qed.

Lemma thread_rows_createMessage s m s' tid :
  createMessage s m = Some s' ->
  thread_rows s' tid =
    (thread_rows s tid ++ (if String.eqb (m_threadId m) tid then [m] else []))%list.
Proof.
  intros C. apply createMessage_Some in C as (_ & _ & _ & Hm & _).
  unfold thread_rows. rewrite Hm, List.filter_app. simpl.
  destruct (String.eqb (m_threadId m) tid); done.
Qed.

Lemma keys_refs_createMessage s m s' :
  NoDup (map key (messages s)) -> refs_ok s -> createMessage s m = Some s' ->
  NoDup (map key (messages s')) /\ refs_ok s'.
Proof.
  intros K R C. apply createMessage_Some in C as (G & Hg & Hgs & Hm & t & Ht & Hts).
  assert (Grow : forall tid, is_Some (threads s !! tid) -> is_Some (threads s' !! tid)).
  { intros tid Hs. rewrite Hts. destruct (truthy _); [|done].
    destruct (decide (tid = m_threadId m)) as [->|N]; [by rewrite lookup_insert_eq|].
    by rewrite lookup_insert_ne. }
  rewrite Hm. split.
  - rewrite map_app. apply NoDup_app. split; [done|]. split; [|constructor; [set_solver|constructor]].
    intros x Hx Hx'. apply list_elem_of_singleton in Hx'. subst x.
    apply list_elem_of_In, in_map_iff in Hx as (r & Hk & Hin).
    exact (getMessage_None_notin _ _ _ G r Hin Hk).
  - intros r Hin. rewrite Hgs. rewrite Hm in Hin. apply in_app_or in Hin as [Hin|[<-|[]]].
    + destruct (R r Hin). auto.
    + split; [apply Grow; rewrite Ht; eauto|done].
Qed.

Lemma threads_createMessage_ne s m s' tid :
  createMessage s m = Some s' -> tid <> m_threadId m -> threads s' !! tid = threads s !! tid.
Proof.
  intros C N. apply createMessage_Some in C as (_ & _ & _ & _ & t & _ & ->).
  destruct (truthy _); [|done]. by rewrite lookup_insert_ne.
Qed.

Lemma threads_createMessage_eq s m s' :
  createMessage s m = Some s' -> truthy (Some (m_threadId m)) = true ->
  exists t, threads s !! m_threadId m = Some t /\
    threads s' !! m_threadId m = Some (mkThread (t_threadId t) (t_groupId t)
                                        (t_subject t) (t_createdBy t) (m_messageid m)).
Proof.
  intros C T. apply createMessage_Some in C as (_ & _ & _ & _ & t & Ht & ->).
  rewrite T, lookup_insert_eq. eauto.
Qed.

Lemma seq_ok_other s m s' tid th :
  createMessage s m = Some s' -> tid <> m_threadId m ->
  seq_ok s tid th -> seq_ok s' tid th.
Proof.
  intros C N (k & E & L). exists k. split; [|done].
  rewrite (thread_rows_createMessage s m s' tid C).
  replace (String.eqb (m_threadId m) tid) with false
    by (symmetry; apply String.eqb_neq; congruence).
  rewrite app_nil_r. done.
Qed.

Lemma Message_new_existing uuid g from to body tid subject :
  truthy (Some tid) = true ->
  fst (Message_new uuid g from to body (Some tid) subject) =
    mkMessageObj g tid "0" from to (nullish subject (JStr "")) body.
Proof. unfold Message_new. intros ->. done. Qed.

(* ------------------------------------------------------------------ *)
(** ** Binding *)

(** [(subject ?? DEFAULT_SUBJECT) ?? ""] is [subject ?? DEFAULT_SUBJECT]. *)
Lemma nullish_twice o d d' : nullish (Some (nullish o (JStr d))) d' = nullish o (JStr d).
Proof. destruct o as [[]|]; reflexivity. Qed.

Lemma bind_arg_text v x : binds_text v = Some x -> bind_arg v = Some [SqlText x].
Proof.
  unfold binds_text. destruct (bind_arg v) as [[|[|y] [|z l]]|]; try discriminate.
  intros H. injection H as <-. done.
Qed.

Lemma binds_text_not_object v x : binds_text v = Some x -> is_object v = false.
Proof. unfold binds_text. destruct v; simpl; done. Qed.

(** [createThread] binds its row exactly when the subject binds one
    non-NULL text, which becomes the row's subject. *)
Lemma thread_row_spec t :
  thread_row t =
    option_map (fun x => mkThread (tho_threadId t) (tho_groupId t) x (tho_createdBy t)
                           (tho_lastIndex t))
      (binds_text (tho_subject t)).
Proof.
  unfold thread_row, run_params, binds_text.
  destruct (tho_subject t) as [|b|n|x|l|f]; cbn; try reflexivity.
  destruct (bind_values l) as [[|v [|v2 vs]]|]; cbn; try reflexivity.
  - destruct v; reflexivity.
  - rewrite length_app, Nat.add_comm. cbn. destruct v; reflexivity.
Qed.

(** When the subject argument binds one non-NULL text, [createMessage]
    binds its row exactly when the body does. *)
Lemma message_row_spec m x :
  binds_text (if json_truthy (mo_subject m) then mo_subject m else JStr "") = Some x ->
  message_row m =
    option_map (fun b => mkMessage (mo_groupId m) (mo_threadId m) (mo_messageid m)
                           (mo_from m) (mo_to m) x b)
      (binds_text (mo_body m)).
Proof.
  unfold message_row.
  generalize (if json_truthy (mo_subject m) then mo_subject m else JStr "") as subj.
  intros subj H. pose proof (binds_text_not_object _ _ H) as O.
  apply bind_arg_text in H.
  unfold run_params, binds_text. cbn [List.filter is_object to_agents_json createdAt_json].
  rewrite O. cbn [bind_args bind_arg bind_value]. rewrite H.
  destruct (mo_body m) as [|b|n|y|l|f]; cbn; try reflexivity.
  destruct (bind_values l) as [[|v [|v2 vs]]|]; cbn; try reflexivity.
  - destruct v; reflexivity.
  - rewrite length_app, Nat.add_comm. cbn. destruct v; reflexivity.
Qed.

Lemma message_row_fields m r :
  message_row m = Some r ->
  m_groupId r = mo_groupId m /\ m_threadId r = mo_threadId m /\
  m_messageid r = mo_messageid m /\ m_from r = mo_from m /\ m_to r = mo_to m.
Proof.
  unfold message_row. intros H.
  destruct (run_params _ _) as [[|a1 [|a2 [|a3 [|a4 [|a5 [|a6 [|[|b] [|a8 [|a9 l]]]]]]]]]|];
    try discriminate.
  injection H as <-. done.
Qed.

Lemma createMessage_obj_Some s m s' :
  createMessage_obj s m = Some s' ->
  exists r, message_row m = Some r /\ createMessage s r = Some s' /\
    m_groupId r = mo_groupId m /\ m_threadId r = mo_threadId m /\
    m_messageid r = mo_messageid m /\ m_from r = mo_from m /\ m_to r = mo_to m.
Proof.
  unfold createMessage_obj. destruct (message_row m) as [r|] eqn:R; [|discriminate].
  intros C. exists r. split; [done|]. split; [done|]. by apply message_row_fields.
Qed.

Lemma createThread_obj_Some s t s' :
  createThread_obj s t = Some s' ->
  exists x, binds_text (tho_subject t) = Some x /\
    createThread s (mkThread (tho_threadId t) (tho_groupId t) x (tho_createdBy t)
                      (tho_lastIndex t)) = Some s'.
Proof.
  unfold createThread_obj. rewrite thread_row_spec.
  destruct (binds_text (tho_subject t)) as [x|]; [|discriminate]. simpl. eauto.
Qed.

(** The row [createMessage] binds, once its subject argument binds [x]. *)
Lemma message_row_Some m x r :
  binds_text (if json_truthy (mo_subject m) then mo_subject m else JStr "") = Some x ->
  message_row m = Some r -> m_subject r = x /\ binds_text (mo_body m) = Some (m_body r).
Proof.
  intros Hx R. rewrite (message_row_spec m x Hx) in R.
  destruct (binds_text (mo_body m)) as [b|]; [|discriminate]. injection R as <-. done.
Qed.

(** [message.subject || ""] binds a text whenever the subject does. *)
Lemma subject_arg_binds v x :
  binds_text v = Some x ->
  binds_text (if json_truthy v then v else JStr "") = Some (if json_truthy v then x else "").
Proof. intros H. destruct (json_truthy v); [exact H|reflexivity]. Qed.

Lemma subject_arg_str x : binds_text (if json_truthy (JStr x) then JStr x else JStr "") = Some x.
Proof.
  cbn [json_truthy]. destruct (String.eqb x "") eqn:E; [|reflexivity].
  apply String.eqb_eq in E. subst. reflexivity.
Qed.

Lemma Inv_send_reply s1 req th rec :
  Inv s1 -> threads s1 !! default "" (r_threadId req) = Some th ->
  thread_rows s1 (default "" (r_threadId req)) <> [] ->
  truthy (r_threadId req) = true -> Inv (snd (send_reply s1 req th rec)).
Proof.
  intros I Hth NE T. destruct rec as [|a rec]; [done|].
  destruct (r_threadId req) as [tid|] eqn:Rt; [|discriminate].
  change (default "" (Some tid)) with tid in Hth, NE.
  unfold send_reply. rewrite Rt. simpl default.
  rewrite (Message_new_existing _ _ _ _ _ tid _ T).
  match goal with |- context [createMessage_obj s1 ?m] => set (mo := m) end.
  destruct (createMessage_obj s1 mo) as [s2|] eqn:C; simpl; [|done].
  apply createMessage_obj_Some in C as (msg & _ & C & _ & Etid & Emid & _).
  change (mo_threadId mo) with tid in Etid.
  change (mo_messageid mo) with (nextMessageId th) in Emid.
  destruct I as [K R Sq].
  destruct (keys_refs_createMessage s1 msg s2 K R C) as [K' R'].
  destruct (Sq tid th Hth) as ([|k] & E & L).
  { exfalso. apply NE. simpl in E. by apply map_eq_nil in E. }
  simpl in L.
  assert (Hid : m_messageid msg = str_nat (S k)) by (rewrite Emid; apply nextMessageId_str_nat, L).
  split; [done|done|].
  intros tid' th' Hth'. destruct (decide (tid' = tid)) as [->|N].
  - assert (T' : truthy (Some (m_threadId msg)) = true) by (rewrite Etid; exact T).
    destruct (threads_createMessage_eq s1 msg s2 C T') as (t & Ht & Ht').
    rewrite Etid in Ht, Ht'.
    rewrite Ht' in Hth'. injection Hth' as <-. rewrite Hth in Ht. injection Ht as <-.
    exists (S (S k)). split; [|exact Hid].
    rewrite (thread_rows_createMessage s1 msg s2 tid C).
    rewrite Etid, String.eqb_refl, map_app, E.
    change (map m_messageid [msg]) with [m_messageid msg]. rewrite Hid.
    rewrite (seq_S (S k) 0), map_app. done.
  - apply (seq_ok_other s1 msg s2); [done|congruence|].
    apply Sq. rewrite <- Hth'. symmetry. apply (threads_createMessage_ne s1 msg s2); congruence.
Qed.

Lemma thread_rows_absent s tid :
  refs_ok s -> threads s !! tid = None -> thread_rows s tid = [].
Proof.
  intros R N. destruct (thread_rows s tid) as [|r l] eqn:E; [done|].
  assert (Hin : In r (thread_rows s tid)) by (rewrite E; left; done).
  apply filter_In in Hin as [Hin Ht]. apply String.eqb_eq in Ht.
  destruct (R r Hin) as [[x Hx] _]. congruence.
Qed.


Lemma createThread_grow s t s' :
  createThread s t = Some s' ->
  NoDup (map key (messages s)) -> refs_ok s -> NoDup (map key (messages s')) /\ refs_ok s'.
Proof.
  intros C K R. apply createThread_Some in C as (Hn & _ & Hg & Hm & Ht).
  rewrite Hm. split; [done|]. intros r Hin. rewrite Hm in Hin.
  destruct (R r Hin) as [Th Gr]. rewrite Hg, Ht. split; [|done].
  destruct (decide (m_threadId r = t_threadId t)) as [->|N]; [by rewrite lookup_insert_eq|].
  by rewrite lookup_insert_ne.
Qed.



Lemma Inv_new_thread s1 th0 s2 msg s3 :
  Inv s1 -> createThread s1 th0 = Some s2 -> createMessage s2 msg = Some s3 ->
  m_threadId msg = t_threadId th0 -> m_messageid msg = "0" -> t_lastIndex th0 = "0" ->
  Inv s3.
Proof.
  intros I CT CM Et Ei El. pose proof I as [K R Sq].
  destruct (createThread_grow s1 th0 s2 CT K R) as [K2 R2].
  destruct (keys_refs_createMessage s2 msg s3 K2 R2 CM) as [K3 R3].
  pose proof CT as CT'. apply createThread_Some in CT' as (Hn & _ & _ & Hm & Hts).
  split; [done|done|]. intros tid th Hth.
  destruct (decide (tid = t_threadId th0)) as [->|N].
  - exists 1. split.
    + rewrite (thread_rows_createMessage s2 msg s3 _ CM), Et, String.eqb_refl.
      rewrite (thread_rows_frame s1 s2) by done. rewrite thread_rows_absent by done.
      simpl. rewrite Ei. done.
    + pose proof CM as CM'. apply createMessage_Some in CM' as (_ & _ & _ & _ & t & Ht & Hts3).
      rewrite Et, Hts, lookup_insert_eq in Ht. injection Ht as <-.
      rewrite Hts3, Et in Hth. destruct (truthy _).
      * rewrite lookup_insert_eq in Hth. injection Hth as <-. simpl. rewrite Ei. done.
      * rewrite Hts, lookup_insert_eq in Hth. injection Hth as <-. rewrite El. done.
  - apply (seq_ok_other s2 msg s3); [done|congruence|].
    rewrite (threads_createMessage_ne s2 msg s3) in Hth by congruence.
    rewrite Hts, lookup_insert_ne in Hth by congruence.
    destruct (Sq tid th Hth) as (k & E & L). exists k.
    rewrite (thread_rows_frame s1 s2) by done. done.
Qed.

(** A freshly created thread without messages. *)
Lemma Inv_createThread s1 th0 s2 :
  Inv s1 -> createThread s1 th0 = Some s2 -> t_lastIndex th0 = "0" -> Inv s2.
Proof.
  intros I CT El. pose proof I as [K R Sq].
  destruct (createThread_grow s1 th0 s2 CT K R) as [K2 R2].
  pose proof CT as CT'. apply createThread_Some in CT' as (Hn & _ & _ & Hm & Hts).
  split; [done|done|]. intros tid th Hth. unfold seq_ok.
  rewrite (thread_rows_frame s1 s2) by done.
  rewrite Hts in Hth. destruct (decide (tid = t_threadId th0)) as [->|N].
  - rewrite lookup_insert_eq in Hth. injection Hth as <-.
    exists 0. rewrite thread_rows_absent by done. split; [done|exact El].
  - rewrite lookup_insert_ne in Hth by congruence. by apply Sq.
Qed.

Lemma Inv_write s req uuid : Inv s -> Inv (snd (write s req uuid)).
Proof.
  intros I. unfold write.
  destruct (_ || _ || _ || _); [done|].
  destruct (normalizeRecipients (w_to req)) as [|a rest]; [done|].
  destruct (ensureGroup s _) as [grp s1] eqn:EG.
  pose proof (Inv_ensureGroup _ _ _ _ I EG) as I1.
  destruct (negb _); [done|].
  destruct (validateAgents _ grp); [|done].
  cbn [Message_new snd fst].
  match goal with |- context [createThread_obj s1 ?t] => set (th0 := t) end.
  destruct (createThread_obj s1 th0) as [s2|] eqn:CT; [|done].
  apply createThread_obj_Some in CT as (x & _ & CT).
  match goal with |- context [createMessage_obj s2 ?m] => set (mo := m) end.
  destruct (createMessage_obj s2 mo) as [s3|] eqn:CM.
  - apply createMessage_obj_Some in CM as (msg & _ & CM & _ & Et & Ei & _).
    apply (Inv_new_thread s1 _ s2 msg s3 I1 CT CM); [exact Et|exact Ei|reflexivity].
  - apply (Inv_createThread s1 _ s2 I1 CT). reflexivity.
Qed.

Lemma resolve_reply_inr s req th s1 tm :
  resolve_reply s req = inr (th, s1, tm) ->
  truthy (r_threadId req) = true /\ truthy (r_from req) = true /\
  truthy_json (r_body req) = true /\
  threads s !! default "" (r_threadId req) = Some th /\
  (exists grp, ensureGroup s (t_groupId th) = (grp, s1) /\
               elem_b (default "" (r_from req)) (g_agents grp) = true) /\
  resolve_target s1 (default "" (r_threadId req)) (r_replyToMessageId req) = Some tm.
Proof.
  unfold resolve_reply, reply_checks, getThread.
  destruct (negb (truthy (r_from req)) || _ || _) eqn:G; [discriminate|].
  apply orb_false_iff in G as [G Gb]. apply orb_false_iff in G as [Gf Gt].
  apply negb_false_iff in Gb, Gf, Gt.
  destruct (threads s !! _) as [th0|] eqn:T; [|discriminate].
  destruct (truthy (r_groupId req) && _); [discriminate|].
  destruct (ensureGroup s (t_groupId th0)) as [grp s1'] eqn:EG.
  destruct (negb (elem_b _ _)) eqn:EL; [discriminate|]. apply negb_false_iff in EL.
  destruct (resolve_target s1' _ _) as [tm'|] eqn:RT; [|discriminate].
  intros H. injection H as <- <- <-. eauto 10.
Qed.

(** A rejected reply commits at most what [ensureGroup] commits for the
    group of the thread it names. *)
Lemma resolve_reply_inl s req r s' :
  resolve_reply s req = inl (r, s') ->
  s' = s \/ exists th grp, getThread s (default "" (r_threadId req)) = Some th /\
                           ensureGroup s (t_groupId th) = (grp, s').
Proof.
  unfold resolve_reply, reply_checks.
  destruct (_ || _ || _); [intros H; injection H; auto|].
  destruct (getThread s _) as [th0|] eqn:GT; [|intros H; injection H; auto].
  destruct (_ && _); [intros H; injection H; auto|].
  destruct (ensureGroup s (t_groupId th0)) as [grp s1] eqn:EG.
  destruct (negb _); [intros H; injection H as _ <-; eauto|].
  destruct (resolve_target s1 _ _); [discriminate|].
  intros H; injection H as _ <-; eauto.
Qed.

Lemma Inv_resolve_reply_inl s req r s' :
  Inv s -> resolve_reply s req = inl (r, s') -> Inv s'.
Proof.
  intros I H. destruct (resolve_reply_inl s req r s' H) as [->|(th & grp & _ & EG)]; [done|].
  by apply (Inv_ensureGroup s (t_groupId th) grp).
Qed.

Lemma getMessage_In_rows s tid mid m :
  getMessage s tid mid = Some m -> In m (thread_rows s tid).
Proof.
  unfold getMessage. intros F. apply find_some in F as [Hin Hk].
  apply same_key_true in Hk. unfold key in Hk. injection Hk as Ht _.
  apply filter_In. split; [done|]. by apply String.eqb_eq.
Qed.

(** The message a reply answers is a row of the thread. *)
Lemma resolve_target_rows s tid r tm :
  resolve_target s tid r = Some tm -> In tm (thread_rows s tid).
Proof.
  unfold resolve_target. destruct (truthy r); [apply getMessage_In_rows|].
  intros L. apply last_Some_elem_of, list_elem_of_omap in L as (x & _ & G).
  by apply getMessage_In_rows in G.
Qed.

Lemma Inv_reply_gen s req f :
  Inv s ->
  Inv (snd (match resolve_reply s req with
            | inl r => r
            | inr (thread, s1, target) => send_reply s1 req thread (f target)
            end)).
Proof.
  intros I. destruct (resolve_reply s req) as [[r s']|[[th s1] tm]] eqn:RR.
  - by apply (Inv_resolve_reply_inl s req r).
  - apply resolve_reply_inr in RR as (Tt & _ & _ & Th & (grp & EG & _) & RT).
    apply Inv_send_reply; [by apply (Inv_ensureGroup s (t_groupId th) grp)| | |done].
    + apply ensureGroup_state in EG as (-> & _). done.
    + apply resolve_target_rows in RT. intros E. rewrite E in RT. done.
Qed.

Lemma Inv_step s s' : Inv s -> step s s' -> Inv s'.
Proof.
  intros I St. destruct St.
  - by apply Inv_write.
  - apply (Inv_reply_gen s req (fun t => reply_recipients t (default "" (r_from req))) I).
  - apply (Inv_reply_gen s req (fun t => reply_all_recipients t (default "" (r_from req))) I).
  - by apply Inv_wizard.
  - apply Inv_empty.
Qed.

Lemma reachable_Inv s : reachable s -> Inv s.
Proof.
  induction 1 as [|s s' _ IH St]; [apply Inv_empty|]. by apply (Inv_step s).
Qed.

Lemma last_map {A B} (f : A -> B) (l : list A) : last (map f l) = option_map f (last l).
Proof.
  induction l as [|x l IH]; [done|]. destruct l as [|y l]; [done|].
  cbn [map]. rewrite !last_cons_cons. exact IH.
Qed.

Lemma NoDup_map_str_nat l : NoDup l -> NoDup (map str_nat l).
Proof.
  intros ND. apply NoDup_fmap_2; [|done].
  intros i j E. by apply str_nat_inj.
Qed.

(* ------------------------------------------------------------------ *)
(** ** Sequencing *)

(** C2: in every reachable store, the identifiers [listMessagesByThread]
    returns for a thread are exactly ["0"], ["1"], ..., ["n-1"] for some
    [n], without repetition, and the thread's [lastIndex] is the identifier
    of its last message, or the sentinel ["0"] when it has none. A thread
    without messages is reachable: [/emails/write] commits the thread
    before inserting the first message, without a transaction, so a body
    [stmt.run] cannot bind leaves the thread empty. *)
Theorem thread_ids_consecutive (s : State) (tid : ThreadId) (th : Thread) :
  reachable s -> threads s !! tid = Some th ->
  exists n,
    map m_messageid (listMessagesByThread s tid) = map str_nat (seq 0 n) /\
    NoDup (map m_messageid (listMessagesByThread s tid)) /\
    t_lastIndex th = match last (listMessagesByThread s tid) with
                     | Some m => m_messageid m
                     | None => "0"
                     end.
Proof.
  intros Rs Hth. destruct (reachable_Inv s Rs) as [K R Sq].
  destruct (Sq tid th Hth) as (n & E & L). exists n.
  rewrite listMessagesByThread_rows by done.
  split; [done|]. split; [rewrite E; apply NoDup_map_str_nat, NoDup_seq|].
  rewrite L. destruct n as [|k].
  - simpl in E. apply map_eq_nil in E as ->. done.
  - assert (Hl : option_map m_messageid (last (thread_rows s tid)) = Some (str_nat k)).
    { rewrite <- last_map, E, (seq_S k 0), map_app. cbn [map]. by rewrite last_snoc. }
    destruct (last (thread_rows s tid)); simpl in Hl |- *; [congruence|discriminate].
Qed.

Lemma reachable_s_hi : reachable s_hi.
Proof.
  apply (reachable_step s_g); [|apply step_write].
  apply (reachable_step empty_state); [apply reachable_init|apply step_wizard].
Qed.

Lemma thread_ids_consecutive_witness :
  reachable s_hi /\ threads s_hi !! "t1" = Some (mkThread "t1" "@g" "Hi" "alice" "0") /\
  exists n,
    map m_messageid (listMessagesByThread s_hi "t1") = map str_nat (seq 0 n) /\
    NoDup (map m_messageid (listMessagesByThread s_hi "t1")) /\
    t_lastIndex (mkThread "t1" "@g" "Hi" "alice" "0") =
      match last (listMessagesByThread s_hi "t1") with
      | Some m => m_messageid m
      | None => "0"
      end.
Proof.
  split; [exact reachable_s_hi|]. split; [reflexivity|].
  apply thread_ids_consecutive; [exact reachable_s_hi|reflexivity].
Defined.

Lemma resolve_reply_inl_not201 s req r s' mid tid nt :
  resolve_reply s req = inl (r, s') -> r <> R201 mid tid nt.
Proof.
  unfold resolve_reply, reply_checks.
  destruct (_ || _ || _); [intros H; injection H as <- _; discriminate|].
  destruct (getThread s _) as [th0|]; [|intros H; injection H as <- _; discriminate].
  destruct (_ && _); [intros H; injection H as <- _; discriminate|].
  destruct (ensureGroup s (t_groupId th0)) as [grp s1] eqn:EG.
  destruct (negb _); [intros H; injection H as <- _; discriminate|].
  destruct (resolve_target s1 _ _); [discriminate|].
  intros H; injection H as <- _; discriminate.
Qed.

Lemma send_reply_201 s1 req th rec mid tid nt s' :
  truthy (r_threadId req) = true ->
  send_reply s1 req th rec = (R201 mid tid nt, s') ->
  mid = nextMessageId th /\ tid = default "" (r_threadId req) /\ nt = false.
Proof.
  intros T. destruct rec as [|a rec]; [intros H; injection H; discriminate|].
  destruct (r_threadId req) as [t|] eqn:Rt; [|discriminate].
  unfold send_reply. rewrite Rt. simpl default.
  rewrite (Message_new_existing _ _ _ _ _ t _ T).
  destruct (createMessage_obj s1 _); [|discriminate].
  intros H. injection H as <- <- <- _. done.
Qed.

Lemma reply_gen_201 s req f mid tid nt s' :
  Inv s ->
  (match resolve_reply s req with
   | inl r => r
   | inr (thread, s1, target) => send_reply s1 req thread (f target)
   end) = (R201 mid tid nt, s') ->
  exists th k, threads s !! tid = Some th /\ t_lastIndex th = str_nat k /\
               mid = str_nat (S k) /\ nt = false.
Proof.
  intros [K R Sq]. destruct (resolve_reply s req) as [[r s1]|[[th s1] tm]] eqn:RR.
  - intros H. injection H as -> _. exfalso. by apply (resolve_reply_inl_not201 s req _ s1 mid tid nt RR).
  - apply resolve_reply_inr in RR as (Tt & _ & _ & Th & _).
    intros H. apply send_reply_201 in H as (-> & -> & ->); [|done].
    destruct (Sq _ th Th) as (n & _ & L). exists th, (Nat.pred n).
    split; [done|]. split; [done|]. split; [by apply nextMessageId_str_nat|done].
Qed.

Lemma write_201 s req uuid mid tid nt s' :
  write s req uuid = (R201 mid tid nt, s') -> mid = "0" /\ tid = uuid /\ nt = true.
Proof.
  unfold write.
  destruct (_ || _ || _ || _); [discriminate|].
  destruct (normalizeRecipients (w_to req)) as [|a rest]; [discriminate|].
  destruct (ensureGroup s _) as [grp s1].
  destruct (negb _); [discriminate|].
  destruct (validateAgents _ grp); [|discriminate].
  cbn [Message_new snd fst].
  destruct (createThread_obj s1 _) as [s2|]; [|discriminate].
  destruct (createMessage_obj s2 _) as [s3|]; [|discriminate].
  intros H. injection H as <- <- <- _. done.
Qed.

(** C1: in every reachable store, [POST /emails/write] (no [threadId])
    answers messageId ["0"] and [newThreadCreated = true]; a reply or
    reply-all to an existing thread answers messageId [String(k + 1)],
    where ["k"] is the [lastIndex] the thread had in the store before the
    call, and [newThreadCreated = false]. *)
Theorem createMessage_ids (s : State) :
  reachable s ->
  (forall req uuid mid tid nt s',
     write s req uuid = (R201 mid tid nt, s') -> mid = "0" /\ nt = true) /\
  (forall req mid tid nt s',
     reply s req = (R201 mid tid nt, s') ->
     exists th k, threads s !! tid = Some th /\ t_lastIndex th = str_nat k /\
                  mid = str_nat (S k) /\ nt = false) /\
  (forall req mid tid nt s',
     reply_all s req = (R201 mid tid nt, s') ->
     exists th k, threads s !! tid = Some th /\ t_lastIndex th = str_nat k /\
                  mid = str_nat (S k) /\ nt = false).
Proof.
  intros Rs. pose proof (reachable_Inv s Rs) as I. split; [|split].
  - intros req uuid mid tid nt s' H. apply write_201 in H as (-> & _ & ->). done.
  - intros req mid tid nt s'. apply reply_gen_201, I.
  - intros req mid tid nt s'. apply reply_gen_201, I.
Qed.

Lemma createMessage_ids_witness :
  reachable s_hi /\
  ((forall req uuid mid tid nt s',
     write s_hi req uuid = (R201 mid tid nt, s') -> mid = "0" /\ nt = true) /\
  (forall req mid tid nt s',
     reply s_hi req = (R201 mid tid nt, s') ->
     exists th k, threads s_hi !! tid = Some th /\ t_lastIndex th = str_nat k /\
                  mid = str_nat (S k) /\ nt = false) /\
  (forall req mid tid nt s',
     reply_all s_hi req = (R201 mid tid nt, s') ->
     exists th k, threads s_hi !! tid = Some th /\ t_lastIndex th = str_nat k /\
                  mid = str_nat (S k) /\ nt = false)).
Proof. split; [exact reachable_s_hi|]. apply createMessage_ids. exact reachable_s_hi. Defined.

(* ------------------------------------------------------------------ *)
(** ** Validation errors *)

(** What a call may have committed: at most the group [g], created with
    an empty roster when it did not exist, nothing else. *)
Definition commits_at_most_group (s : State) (g : GroupId) (s' : State) : Prop :=
  threads s' = threads s /\ messages s' = messages s /\
  (groups s' = groups s \/
   groups s !! g = None /\ groups s' = <[g := mkGroup g []]> (groups s)).

Lemma commits_refl s g : commits_at_most_group s g s.
Proof. split; [done|]. split; [done|]. by left. Qed.

Lemma commits_ensureGroup s g grp s1 :
  ensureGroup s g = (grp, s1) -> commits_at_most_group s g s1.
Proof.
  intros E. apply ensureGroup_state in E as (Ht & Hm & _ & Hg).
  split; [done|]. split; [done|]. done.
Qed.

(** The write scenario on a store where [@g] does not exist yet. *)
Definition s_unknown_group : State := snd (write empty_state req_hi "t1").

(** C3 (counterexample): writing to a group that does not exist fails
    with the sender validation error, and the group has been created. *)
Lemma validation_error_commits_group :
  fst (write empty_state req_hi "t1") = R400 (InvalidSender "alice") /\
  groups empty_state !! "@g" = None /\
  groups s_unknown_group !! "@g" = Some (mkGroup "@g" []).
Proof. split; [reflexivity|]. split; reflexivity. Qed.

Lemma send_reply_400 s1 req th rec why s' :
  send_reply s1 req th rec = (R400 why, s') -> s' = s1.
Proof.
  destruct rec as [|a rec]; [intros H; injection H; done|].
  unfold send_reply. destruct (createMessage_obj s1 _); intros H; injection H; done.
Qed.

Lemma reply_gen_400 s req f why s' :
  (match resolve_reply s req with
   | inl r => r
   | inr (thread, s1, target) => send_reply s1 req thread (f target)
   end) = (R400 why, s') ->
  s' = s \/ exists th, getThread s (default "" (r_threadId req)) = Some th /\
                      commits_at_most_group s (t_groupId th) s'.
Proof.
  destruct (resolve_reply s req) as [[r s1]|[[th s1] tm]] eqn:RR.
  - intros H. injection H as _ <-.
    destruct (resolve_reply_inl s req r s1 RR) as [->|(th & grp & GT & EG)]; [by left|].
    right. exists th. split; [done|]. by apply (commits_ensureGroup s _ grp).
  - intros H. apply send_reply_400 in H as ->.
    apply resolve_reply_inr in RR as (_ & _ & _ & Th & (grp & EG & _) & _).
    right. exists th. split; [done|]. by apply (commits_ensureGroup s (t_groupId th) grp).
Qed.

Lemma write_400 s req uuid why s' :
  write s req uuid = (R400 why, s') -> commits_at_most_group s (default "" (w_groupId req)) s'.
Proof.
  unfold write.
  destruct (_ || _ || _ || _); [intros H; injection H as _ <-; apply commits_refl|].
  destruct (normalizeRecipients (w_to req)) as [|a rest];
    [intros H; injection H as _ <-; apply commits_refl|].
  destruct (ensureGroup s _) as [grp s1] eqn:EG.
  destruct (negb _); [intros H; injection H as _ <-; by apply (commits_ensureGroup s _ grp)|].
  destruct (validateAgents _ grp);
    [|intros H; injection H as _ <-; by apply (commits_ensureGroup s _ grp)].
  cbn [Message_new snd fst].
  destruct (createThread_obj s1 _) as [s2|]; [|discriminate].
  destruct (createMessage_obj s2 _) as [s3|]; discriminate.
Qed.

(** C3 (amended): when [POST /emails/write], [/emails/reply] or
    [/emails/reply-all] fails with a 400 validation error, the threads and
    messages are those of before the call, and the groups are those of
    before except that the group the call names may have been created by
    [ensureGroup], with an empty roster, when it did not exist: for a
    write the request's [groupId], for a reply or reply-all the group of
    the stored thread named by [threadId]. *)
Theorem validation_errors_commit_at_most_group (s : State) :
  (forall req uuid why s',
     write s req uuid = (R400 why, s') ->
     commits_at_most_group s (default "" (w_groupId req)) s') /\
  (forall req why s', reply s req = (R400 why, s') ->
     s' = s \/ exists th, getThread s (default "" (r_threadId req)) = Some th /\
                         commits_at_most_group s (t_groupId th) s') /\
  (forall req why s', reply_all s req = (R400 why, s') ->
     s' = s \/ exists th, getThread s (default "" (r_threadId req)) = Some th /\
                         commits_at_most_group s (t_groupId th) s').
Proof.
  split; [|split].
  - apply write_400.
  - intros req why s'. apply reply_gen_400.
  - intros req why s'. apply reply_gen_400.
Qed.

(* ------------------------------------------------------------------ *)
(** ** Recipients of a reply *)

Lemma elem_b_In x l : elem_b x l = true <-> In x l.
Proof.
  unfold elem_b. rewrite existsb_exists. split.
  - intros (y & Hy & E). apply String.eqb_eq in E. by subst.
  - intros H. exists x. split; [done|]. apply String.eqb_refl.
Qed.

Lemma set_add_In x y l : In x (set_add y l) <-> x = y \/ In x l.
Proof.
  unfold set_add. destruct (elem_b y l) eqn:E.
  - apply elem_b_In in E. split; [auto|]. intros [->|H]; done.
  - rewrite in_app_iff. simpl. intuition.
Qed.

Lemma set_add_NoDup y l : NoDup l -> NoDup (set_add y l).
Proof.
  unfold set_add. intros ND. destruct (elem_b y l) eqn:E; [done|].
  apply NoDup_app. split; [done|]. split; [|apply NoDup_singleton].
  intros x Hx Hx'. apply list_elem_of_singleton in Hx'. subst.
  apply list_elem_of_In in Hx. apply elem_b_In in Hx. congruence.
Qed.

Lemma fold_set_add_In x l acc :
  In x (fold_left (fun acc addr => set_add addr acc) l acc) <-> In x l \/ In x acc.
Proof.
  revert acc. induction l as [|a l IH]; intros acc; simpl; [intuition|].
  rewrite IH, set_add_In. intuition.
Qed.

Lemma fold_set_add_NoDup l acc :
  NoDup acc -> NoDup (fold_left (fun acc addr => set_add addr acc) l acc).
Proof.
  revert acc. induction l as [|a l IH]; intros acc ND; simpl; [done|].
  apply IH, set_add_NoDup, ND.
Qed.

Lemma set_delete_In x y l : In x (set_delete y l) <-> In x l /\ x <> y.
Proof.
  unfold set_delete. rewrite filter_In, negb_true_iff, String.eqb_neq. done.
Qed.

(** The reply-all recipient list as a set: the sender and the recipients
    of the target, without the replier, each once. *)
Lemma reply_all_recipients_set tm f :
  NoDup (reply_all_recipients tm f) /\
  (forall x, In x (reply_all_recipients tm f) <-> (x = m_from tm \/ In x (m_to tm)) /\ x <> f).
Proof.
  unfold reply_all_recipients. split.
  - unfold set_delete. apply NoDup_ListNoDup, List.NoDup_filter, NoDup_ListNoDup.
    apply fold_set_add_NoDup, set_add_NoDup. constructor.
  - intros x. rewrite set_delete_In, fold_set_add_In, set_add_In. simpl. intuition.
Qed.

Lemma send_reply_empty s1 req th : send_reply s1 req th [] = (R400 NoValidRecipients, s1).
Proof. reflexivity. Qed.

Lemma send_reply_201_last s1 req th rec mid tid nt s' :
  send_reply s1 req th rec = (R201 mid tid nt, s') ->
  exists m, last (messages s') = Some m /\ m_to m = rec.
Proof.
  destruct rec as [|a rec]; [intros H; injection H; discriminate|].
  unfold send_reply.
  match goal with |- context [createMessage_obj s1 ?m] => set (msg := m) end.
  destruct (createMessage_obj s1 msg) as [s2|] eqn:C; [|discriminate].
  intros H. injection H as _ _ _ <-.
  apply createMessage_obj_Some in C as (r & _ & C & _ & _ & _ & _ & Eto).
  apply createMessage_Some in C as (_ & _ & _ & -> & _).
  exists r. rewrite last_snoc. split; [done|]. rewrite Eto.
  unfold msg. destruct (r_threadId req) as [t|]; simpl;
    [destruct (negb (String.eqb t "")); done|done].
Qed.

(** C4: for a reply-all whose target message is resolved, the recipient
    list holds each address of [{target.from} ∪ target.to] other than
    the replier exactly once; when it is empty the call fails with
    "no valid recipients" and stores no message; when it succeeds, the
    stored message is sent to that list. *)
Theorem reply_all_recipients_spec (s : State) (req : ReplyReq) (th : Thread)
    (s1 : State) (tm : Message) (f : AgentAddress) :
  resolve_reply s req = inr (th, s1, tm) -> r_from req = Some f ->
  NoDup (reply_all_recipients tm f) /\
  (forall x, In x (reply_all_recipients tm f) <->
             (x = m_from tm \/ In x (m_to tm)) /\ x <> f) /\
  (reply_all_recipients tm f = [] ->
     reply_all s req = (R400 NoValidRecipients, s1) /\ messages s1 = messages s) /\
  (forall mid tid nt s', reply_all s req = (R201 mid tid nt, s') ->
     exists m, last (messages s') = Some m /\ m_to m = reply_all_recipients tm f).
Proof.
  intros RR Hf. destruct (reply_all_recipients_set tm f) as [ND Hin].
  unfold reply_all. rewrite RR, Hf. simpl default.
  split; [done|]. split; [done|]. split.
  - intros ->. split; [done|].
    apply resolve_reply_inr in RR as (_ & _ & _ & _ & (grp & EG & _) & _).
    apply ensureGroup_state in EG as (_ & -> & _). done.
  - intros mid tid nt s'. apply send_reply_201_last.
Qed.

Lemma reply_all_recipients_spec_witness :
  let req := mkReplyReq None (Some "t1") None (Some "bob") (Some (JStr "hey")) in
  let s1 := s_hi in
  let tm := mkMessage "@g" "t1" "0" "alice" ["bob"] "Hi" "hello" in
  (resolve_reply s_hi req = inr (mkThread "t1" "@g" "Hi" "alice" "0", s1, tm) /\
   r_from req = Some "bob") /\
  (NoDup (reply_all_recipients tm "bob") /\
  (forall x, In x (reply_all_recipients tm "bob") <->
             (x = m_from tm \/ In x (m_to tm)) /\ x <> "bob") /\
  (reply_all_recipients tm "bob" = [] ->
     reply_all s_hi req = (R400 NoValidRecipients, s1) /\ messages s1 = messages s_hi) /\
  (forall mid tid nt s', reply_all s_hi req = (R201 mid tid nt, s') ->
     exists m, last (messages s') = Some m /\ m_to m = reply_all_recipients tm "bob")).
Proof.
  cbv zeta. split; [split; reflexivity|].
  apply (reply_all_recipients_spec _ _ (mkThread "t1" "@g" "Hi" "alice" "0")); reflexivity.
Defined.

(** C7: for a reply whose target message is resolved, the recipients are
    [target.from] unless it is the replier; when [target.from] is the
    replier the call fails with "no valid recipients" and stores no
    message. *)
Theorem reply_recipients_spec (s : State) (req : ReplyReq) (th : Thread)
    (s1 : State) (tm : Message) (f : AgentAddress) :
  resolve_reply s req = inr (th, s1, tm) -> r_from req = Some f ->
  (forall x, In x (reply_recipients tm f) <-> x = m_from tm /\ x <> f) /\
  (m_from tm = f ->
     reply s req = (R400 NoValidRecipients, s1) /\ messages s1 = messages s).
Proof.
  intros RR Hf. split.
  - intros x. unfold reply_recipients.
    rewrite filter_In, negb_true_iff, String.eqb_neq. simpl. intuition.
  - intros E. unfold reply. rewrite RR, Hf. simpl default.
    unfold reply_recipients. rewrite E. simpl. rewrite String.eqb_refl. split; [done|].
    apply resolve_reply_inr in RR as (_ & _ & _ & _ & (grp & EG & _) & _).
    apply ensureGroup_state in EG as (_ & -> & _). done.
Qed.

Lemma reply_recipients_spec_witness :
  let req := mkReplyReq None (Some "t1") None (Some "alice") (Some (JStr "hey")) in
  let tm := mkMessage "@g" "t1" "0" "alice" ["bob"] "Hi" "hello" in
  (resolve_reply s_hi req = inr (mkThread "t1" "@g" "Hi" "alice" "0", s_hi, tm) /\
   r_from req = Some "alice") /\
  ((forall x, In x (reply_recipients tm "alice") <-> x = m_from tm /\ x <> "alice") /\
   (m_from tm = "alice" ->
      reply s_hi req = (R400 NoValidRecipients, s_hi) /\ messages s_hi = messages s_hi)).
Proof.
  cbv zeta. split; [split; reflexivity|].
  apply (reply_recipients_spec _ _ (mkThread "t1" "@g" "Hi" "alice" "0")); reflexivity.
Defined.

(* ------------------------------------------------------------------ *)
(** ** Message lookup *)

(** The stored messages with identifier [mid], in insertion order,
    restricted to group [gid] when one is given. *)
Definition matching (s : State) (mid : MessageId) (gid : option GroupId) : list Message :=
  List.filter (fun r => String.eqb (m_messageid r) mid &&
                        (if truthy gid then String.eqb (m_groupId r) (default "" gid)
                         else true)) (messages s).

Lemma findMessagesById_matching s mid gid :
  Inv s -> findMessagesById s mid gid = rev (matching s mid gid).
Proof.
  intros [K R Sq]. unfold findMessagesById. apply omap_id_on.
  intros r Hin. apply in_rev in Hin.
  apply filter_In in Hin as [Hin _]. by apply find_key.
Qed.

Lemma matching_group_absent s mid gid :
  Inv s -> truthy gid = true -> getGroup s (default "" gid) = None ->
  matching s mid gid = [].
Proof.
  intros [K R Sq] T N. destruct (matching s mid gid) as [|r l] eqn:E; [done|].
  assert (Hin : In r (matching s mid gid)) by (rewrite E; left; done).
  unfold matching in Hin. rewrite T in Hin.
  apply filter_In in Hin as [Hin Hm]. apply andb_prop in Hm as [_ Hg].
  apply String.eqb_eq in Hg. destruct (R r Hin) as [_ [g Hgr]].
  unfold getGroup in N. congruence.
Qed.

(** C6: in every reachable store, [GET /messages/:messageId] without
    [threadId] answers not-found when no stored message matches, returns
    the message when exactly one matches, and otherwise rejects the call
    with the (threadId, groupId) location of every match. *)
Theorem find_message_policy (s : State) (mid : MessageId) (gid : option GroupId) :
  reachable s ->
  (matching s mid gid = [] -> exists what, get_message s mid None gid = R404 what) /\
  (forall m, matching s mid gid = [m] -> get_message s mid None gid = R200 m) /\
  (2 <= length (matching s mid gid) ->
     get_message s mid None gid =
       R400 (Ambiguous (map (fun m => (m_threadId m, m_groupId m))
                            (rev (matching s mid gid))))).
Proof.
  intros Rs. pose proof (reachable_Inv s Rs) as I. unfold get_message.
  destruct (truthy gid && bool_decide (getGroup s (default "" gid) = None)) eqn:G.
  - apply andb_prop in G as [T B]. apply bool_decide_eq_true in B.
    rewrite (matching_group_absent s mid gid I T B).
    split; [eauto|]. split; [discriminate|simpl; lia].
  - simpl. rewrite (findMessagesById_matching s mid gid I).
    destruct (matching s mid gid) as [|x [|y l]] eqn:E.
    + split; [eauto|]. split; [discriminate|simpl; lia].
    + split; [discriminate|]. split; [intros m H; injection H as ->; done|simpl; lia].
    + split; [discriminate|]. split; [discriminate|]. intros _.
      destruct (rev (x :: y :: l)) as [|a [|b l']] eqn:Er.
      * apply (f_equal length) in Er. rewrite length_rev in Er. discriminate.
      * apply (f_equal length) in Er. rewrite length_rev in Er. discriminate.
      * done.
Qed.

Lemma find_message_policy_witness :
  reachable s_hi /\
  ((matching s_hi "0" None = [] -> exists what, get_message s_hi "0" None None = R404 what) /\
  (forall m, matching s_hi "0" None = [m] -> get_message s_hi "0" None None = R200 m) /\
  (2 <= length (matching s_hi "0" None) ->
     get_message s_hi "0" None None =
       R400 (Ambiguous (map (fun m => (m_threadId m, m_groupId m))
                            (rev (matching s_hi "0" None)))))).
Proof. split; [exact reachable_s_hi|]. apply find_message_policy, reachable_s_hi. Defined.

(** Two threads of [@g], each with its message ["0"]. *)
Definition s_two : State := snd (write s_hi req_hi "t2").

Example find_message_two_threads :
  get_message s_two "0" None None = R400 (Ambiguous [("t2", "@g"); ("t1", "@g")]).
Proof. reflexivity. Qed.

(* ------------------------------------------------------------------ *)
(** ** Reply target *)

Definition req_empty_target : ReplyReq :=
  mkReplyReq None (Some "t1") (Some "") (Some "bob") (Some (JStr "hey")).

(** C8 (counterexample): a [replyToMessageId] given as the empty string
    names no stored message, yet the reply is sent (to the last message
    of the thread) instead of failing with not-found. *)
Lemma reply_empty_target_not_404 :
  r_replyToMessageId req_empty_target = Some "" /\
  getMessage s_hi "t1" "" = None /\
  fst (reply s_hi req_empty_target) = R201 "1" "t1" false.
Proof. split; [reflexivity|]. split; reflexivity. Qed.

Lemma reply_checks_inr s req th s1 :
  reply_checks s req = inr (th, s1) -> exists g grp, ensureGroup s g = (grp, s1).
Proof.
  unfold reply_checks.
  destruct (_ || _ || _); [discriminate|].
  destruct (getThread s _) as [th0|]; [|discriminate].
  destruct (_ && _); [discriminate|].
  destruct (ensureGroup s (t_groupId th0)) as [grp s1'] eqn:EG.
  destruct (negb _); [discriminate|].
  intros H. injection H as _ <-. eauto.
Qed.

Lemma getMessage_key s tid mid m :
  NoDup (map key (messages s)) ->
  getMessage s tid mid = Some m <-> In m (messages s) /\ key m = (tid, mid).
Proof.
  intros K. split.
  - intros F. apply find_some in F as [Hin Hk]. apply same_key_true in Hk. done.
  - intros [Hin Hk]. unfold key in Hk. injection Hk as <- <-. by apply find_key.
Qed.

(** C8 (amended): in a reachable store, once the thread, group and sender
    checks of a reply or reply-all pass: when a non-empty
    [replyToMessageId] is given, the target is the stored message with
    key (threadId, replyToMessageId), and not-found when there is none;
    when it is omitted or empty, the target is the last message of the
    thread in insertion order, and not-found when the thread has none. *)
Theorem resolve_reply_target (s : State) (req : ReplyReq) (th : Thread) (s1 : State) :
  reachable s -> reply_checks s req = inr (th, s1) ->
  (forall rid m, getMessage s1 (default "" (r_threadId req)) rid = Some m <->
                 In m (messages s1) /\ key m = (default "" (r_threadId req), rid)) /\
  (forall rid, r_replyToMessageId req = Some rid -> rid <> "" ->
     resolve_reply s req =
       match getMessage s1 (default "" (r_threadId req)) rid with
       | Some tm => inr (th, s1, tm)
       | None => inl (R404 TargetNotFound, s1)
       end) /\
  (r_replyToMessageId req = None \/ r_replyToMessageId req = Some "" ->
     resolve_reply s req =
       match last (thread_rows s1 (default "" (r_threadId req))) with
       | Some tm => inr (th, s1, tm)
       | None => inl (R404 TargetNotFound, s1)
       end).
Proof.
  intros Rs RC. pose proof (reachable_Inv s Rs) as I.
  destruct (reply_checks_inr s req th s1 RC) as (g & grp & EG).
  pose proof (Inv_ensureGroup s g grp s1 I EG) as [K1 R1 S1].
  unfold resolve_reply. rewrite RC. unfold resolve_target.
  split; [intros rid m; by apply getMessage_key|]. split.
  - intros rid Hr N. rewrite Hr. simpl.
    replace (String.eqb rid "") with false by (symmetry; by apply String.eqb_neq). done.
  - intros [Hr|Hr]; rewrite Hr; simpl; rewrite listMessagesByThread_rows by done; done.
Qed.

Lemma resolve_reply_target_witness :
  let req := mkReplyReq None (Some "t1") (Some "0") (Some "bob") (Some (JStr "hey")) in
  (reachable s_hi /\ reply_checks s_hi req = inr (mkThread "t1" "@g" "Hi" "alice" "0", s_hi)) /\
  ((forall rid m, getMessage s_hi (default "" (r_threadId req)) rid = Some m <->
                 In m (messages s_hi) /\ key m = (default "" (r_threadId req), rid)) /\
  (forall rid, r_replyToMessageId req = Some rid -> rid <> "" ->
     resolve_reply s_hi req =
       match getMessage s_hi (default "" (r_threadId req)) rid with
       | Some tm => inr (mkThread "t1" "@g" "Hi" "alice" "0", s_hi, tm)
       | None => inl (R404 TargetNotFound, s_hi)
       end) /\
  (r_replyToMessageId req = None \/ r_replyToMessageId req = Some "" ->
     resolve_reply s_hi req =
       match last (thread_rows s_hi (default "" (r_threadId req))) with
       | Some tm => inr (mkThread "t1" "@g" "Hi" "alice" "0", s_hi, tm)
       | None => inl (R404 TargetNotFound, s_hi)
       end)).
Proof.
  cbv zeta. split; [split; [exact reachable_s_hi|reflexivity]|].
  apply resolve_reply_target; [exact reachable_s_hi|reflexivity].
Defined.

(* ------------------------------------------------------------------ *)
(** ** Subject of a new thread *)

Definition req_no_subject : WriteReq :=
  mkWriteReq (Some "@g") (Some "alice") (Some (ToList ["bob"])) None (Some (JStr "hello")).

(** At the API level a write without a subject reaches the constructor
    with [DEFAULT_SUBJECT], so the new thread is titled ["No subject"]. *)
Example write_no_subject_thread :
  w_subject req_no_subject = None /\
  fst (write s_g req_no_subject "t2") = R201 "0" "t2" true /\
  option_map t_subject (threads (snd (write s_g req_no_subject "t2")) !! "t2") =
    Some "No subject".
Proof. split; [reflexivity|]. split; reflexivity. Qed.

Lemma write_thread_subject_stored s req uuid mid tid nt s' :
  write s req uuid = (R201 mid tid nt, s') ->
  exists th, threads s' !! tid = Some th /\
    binds_text (nullish (w_subject req) (JStr DEFAULT_SUBJECT)) = Some (t_subject th).
Proof.
  unfold write.
  destruct (_ || _ || _ || _); [discriminate|].
  destruct (normalizeRecipients (w_to req)) as [|a rest]; [discriminate|].
  destruct (ensureGroup s _) as [grp s1].
  destruct (negb _); [discriminate|].
  destruct (validateAgents _ grp); [|discriminate].
  cbn [Message_new snd fst].
  match goal with |- context [createThread_obj s1 ?t] => set (th0 := t) end.
  destruct (createThread_obj s1 th0) as [s2|] eqn:CT; [|discriminate].
  match goal with |- context [createMessage_obj s2 ?m] => set (mo := m) end.
  destruct (createMessage_obj s2 mo) as [s3|] eqn:CM; [|discriminate].
  intros H. injection H as _ <- _ <-.
  apply createThread_obj_Some in CT as (x & Hx & CT).
  apply createMessage_obj_Some in CM as (msg & _ & CM & _ & Et & _).
  apply createThread_Some in CT as (_ & _ & _ & _ & Hts).
  apply createMessage_Some in CM as (_ & _ & _ & _ & t & Ht & Hts3).
  change (mo_threadId mo) with uuid in Et.
  change (tho_threadId th0) with uuid in Hts.
  change (tho_subject th0) with
    (nullish (Some (nullish (w_subject req) (JStr DEFAULT_SUBJECT))) (JStr "")) in Hx.
  rewrite nullish_twice in Hx.
  rewrite Et in Ht, Hts3. cbn [t_threadId] in Hts.
  rewrite Hts, lookup_insert_eq in Ht. injection Ht as <-.
  rewrite Hts3. destruct (truthy (Some uuid)).
  - rewrite lookup_insert_eq. eexists; split; [done|]. exact Hx.
  - rewrite Hts, lookup_insert_eq. eexists; split; [done|]. exact Hx.
Qed.

(** C9: [createMessage] (the [Message] constructor) called without a
    thread id spawns a thread whose subject is the provided subject, or
    the empty string when none is provided ([subject ?? ""]), with
    [lastIndex] "0" and message id "0"; at its call site
    [POST /emails/write] the provided subject is
    [subject ?? DEFAULT_SUBJECT], and the persisted thread carries exactly
    the text [stmt.run] binds for it. *)
Theorem createMessage_new_thread_subject :
  (forall uuid groupId from to body threadId subject,
     truthy threadId = false ->
     exists th, snd (Message_new uuid groupId from to body threadId subject) = Some th /\
       tho_subject th = nullish subject (JStr "") /\
       tho_lastIndex th = "0" /\
       mo_messageid (fst (Message_new uuid groupId from to body threadId subject)) = "0") /\
  (forall s req uuid mid tid nt s',
     write s req uuid = (R201 mid tid nt, s') ->
     exists th, threads s' !! tid = Some th /\
       binds_text (nullish (w_subject req) (JStr DEFAULT_SUBJECT)) = Some (t_subject th)).
Proof.
  split; [|exact write_thread_subject_stored].
  intros uuid groupId from to body [tid|] subject Ht; simpl in *.
  - rewrite Ht. eexists; done.
  - eexists; done.
Qed.

Lemma createMessage_new_thread_subject_witness :
  truthy None = false /\
  exists th, snd (Message_new "t9" "@g" "alice" ["bob"] (JStr "x") None None) = Some th /\
    tho_subject th = JStr "" /\ tho_lastIndex th = "0" /\
    mo_messageid (fst (Message_new "t9" "@g" "alice" ["bob"] (JStr "x") None None)) = "0".
Proof.
  split; [reflexivity|].
  apply (proj1 createMessage_new_thread_subject "t9" "@g" "alice" ["bob"] (JStr "x") None None).
  reflexivity.
Defined.

(* ================================================================== *)
(** * Further properties of the store and the endpoints *)

(* ------------------------------------------------------------------ *)
(** ** Threads of the store *)

(** Every thread row is stored under its own id and names an existing
    group (the FOREIGN KEY of [threads]). *)
Definition threads_ok (s : State) : Prop :=
  forall tid th, threads s !! tid = Some th ->
    t_threadId th = tid /\ is_Some (groups s !! t_groupId th).

Lemma threads_ok_grow s s' :
  threads_ok s -> threads s' = threads s ->
  (forall g, is_Some (groups s !! g) -> is_Some (groups s' !! g)) -> threads_ok s'.
Proof.
  intros T Ht Hg tid th H. rewrite Ht in H. destruct (T tid th H). auto.
Qed.

Lemma threads_ok_ensureGroup s g grp s1 :
  threads_ok s -> ensureGroup s g = (grp, s1) -> threads_ok s1.
Proof.
  intros T E. apply ensureGroup_state in E as (Ht & _ & _ & Hg).
  apply (threads_ok_grow s); [done|done|]. intros g' Hs.
  destruct Hg as [-> | [_ ->]]; [done|].
  destruct (decide (g' = g)) as [->|N]; [by rewrite lookup_insert_eq|].
  by rewrite lookup_insert_ne.
Qed.

Lemma threads_ok_createThread s t s' :
  threads_ok s -> createThread s t = Some s' -> threads_ok s'.
Proof.
  intros T C. apply createThread_Some in C as (_ & Hg & Hgs & _ & Hts).
  intros tid th H. rewrite Hgs. rewrite Hts in H.
  destruct (decide (tid = t_threadId t)) as [->|N].
  - rewrite lookup_insert_eq in H. injection H as <-. done.
  - rewrite lookup_insert_ne in H by congruence. by apply T.
Qed.

Lemma threads_ok_createMessage s m s' :
  threads_ok s -> createMessage s m = Some s' -> threads_ok s'.
Proof.
  intros T C. apply createMessage_Some in C as (_ & _ & Hgs & _ & t & Ht & Hts).
  intros tid th H. rewrite Hgs. rewrite Hts in H. destruct (truthy _); [|by apply T].
  destruct (decide (tid = m_threadId m)) as [->|N].
  - rewrite lookup_insert_eq in H. injection H as <-. simpl. by apply T.
  - rewrite lookup_insert_ne in H by congruence. by apply T.
Qed.

Lemma send_reply_cases s1 req th rec :
  snd (send_reply s1 req th rec) = s1 \/
  exists msg, createMessage s1 msg = Some (snd (send_reply s1 req th rec)).
Proof.
  destruct rec as [|a rec]; [by left|]. unfold send_reply.
  match goal with |- context [createMessage_obj s1 ?m] => set (mo := m) end.
  destruct (createMessage_obj s1 mo) as [s2|] eqn:C; simpl; [right|by left].
  apply createMessage_obj_Some in C as (msg & _ & C & _). eauto.
Qed.

Lemma threads_ok_reply_gen s req f :
  threads_ok s ->
  threads_ok (snd (match resolve_reply s req with
                   | inl r => r
                   | inr (thread, s1, target) => send_reply s1 req thread (f target)
                   end)).
Proof.
  intros T. destruct (resolve_reply s req) as [[r s']|[[th s1] tm]] eqn:RR.
  - destruct (resolve_reply_inl s req r s' RR) as [->|(th & grp & _ & EG)]; [done|].
    by apply (threads_ok_ensureGroup s (t_groupId th) grp).
  - apply resolve_reply_inr in RR as (_ & _ & _ & _ & (grp & EG & _) & _).
    pose proof (threads_ok_ensureGroup s _ grp s1 T EG) as T1.
    destruct (send_reply_cases s1 req th (f tm)) as [->|[msg C]]; [done|].
    by apply (threads_ok_createMessage s1 msg).
Qed.

Lemma threads_ok_write s req uuid : threads_ok s -> threads_ok (snd (write s req uuid)).
Proof.
  intros T. unfold write.
  destruct (_ || _ || _ || _); [done|].
  destruct (normalizeRecipients (w_to req)) as [|a rest]; [done|].
  destruct (ensureGroup s _) as [grp s1] eqn:EG.
  pose proof (threads_ok_ensureGroup _ _ _ _ T EG) as T1.
  destruct (negb _); [done|].
  destruct (validateAgents _ grp); [|done].
  cbn [Message_new snd fst].
  match goal with |- context [createThread_obj s1 ?t] => set (th0 := t) end.
  destruct (createThread_obj s1 th0) as [s2|] eqn:CT; [|done].
  apply createThread_obj_Some in CT as (x & _ & CT).
  pose proof (threads_ok_createThread _ _ _ T1 CT) as T2.
  match goal with |- context [createMessage_obj s2 ?m] => set (mo := m) end.
  destruct (createMessage_obj s2 mo) as [s3|] eqn:CM; [|done].
  apply createMessage_obj_Some in CM as (msg & _ & CM & _).
  by apply (threads_ok_createMessage s2 msg).
Qed.

Lemma threads_ok_reachable s : reachable s -> threads_ok s.
Proof.
  induction 1 as [|s s' _ IH St].
  - intros tid th H. simpl in H. rewrite lookup_empty in H. discriminate.
  - destruct St.
    + by apply threads_ok_write.
    + apply (threads_ok_reply_gen s req (fun t => reply_recipients t (default "" (r_from req))) IH).
    + apply (threads_ok_reply_gen s req (fun t => reply_all_recipients t (default "" (r_from req))) IH).
    + unfold wizard_create, createGroup. simpl. destruct (groups s !! g) eqn:E; [done|].
      apply (threads_ok_grow s); [done|done|]. intros g' Hs. simpl.
      destruct (decide (g' = g)) as [->|N]; [by rewrite lookup_insert_eq|].
      by rewrite lookup_insert_ne.
    + intros tid th H. simpl in H. rewrite lookup_empty in H. discriminate.
Qed.

(** In every reachable store, no two messages share their
    (thread_id, message_id) pair, every message names an existing thread
    and an existing group, and every thread is stored under its own id and
    names an existing group. *)
Theorem reachable_store_integrity (s : State) :
  reachable s ->
  NoDup (map (fun m => (m_threadId m, m_messageid m)) (messages s)) /\
  (forall m, In m (messages s) ->
     is_Some (threads s !! m_threadId m) /\ is_Some (groups s !! m_groupId m)) /\
  (forall tid th, threads s !! tid = Some th ->
     t_threadId th = tid /\ is_Some (groups s !! t_groupId th)).
Proof.
  intros Rs. destruct (reachable_Inv s Rs) as [K Rf _].
  split; [exact K|]. split; [exact Rf|]. by apply threads_ok_reachable.
Qed.

Lemma reachable_store_integrity_witness :
  reachable s_hi /\
  NoDup (map (fun m => (m_threadId m, m_messageid m)) (messages s_hi)) /\
  (forall m, In m (messages s_hi) ->
     is_Some (threads s_hi !! m_threadId m) /\ is_Some (groups s_hi !! m_groupId m)) /\
  (forall tid th, threads s_hi !! tid = Some th ->
     t_threadId th = tid /\ is_Some (groups s_hi !! t_groupId th)).
Proof.
  split; [exact reachable_s_hi|]. apply reachable_store_integrity. exact reachable_s_hi.
Defined.

(* ------------------------------------------------------------------ *)
(** ** Inserting a message *)

Lemma find_app_split {A} (f : A -> bool) l1 l2 :
  List.find f (l1 ++ l2) = match List.find f l1 with Some y => Some y | None => List.find f l2 end.
Proof. induction l1 as [|x l1 IH]; simpl; [done|]. destruct (f x); done. Qed.

(** After [createMessage] succeeds, [getMessage] finds the new message
    under its (threadId, messageid) pair and every other pair reads as
    before; inserting the same message again is refused by the UNIQUE
    constraint; and when its [threadId] is non-empty, the thread's
    [lastIndex] is now the message's id. *)
Theorem createMessage_getMessage (s : State) (m : Message) (s' : State) :
  createMessage s m = Some s' ->
  getMessage s' (m_threadId m) (m_messageid m) = Some m /\
  (forall t i, (t, i) <> (m_threadId m, m_messageid m) -> getMessage s' t i = getMessage s t i) /\
  createMessage s' m = None /\
  (m_threadId m <> "" -> option_map t_lastIndex (threads s' !! m_threadId m) = Some (m_messageid m)).
Proof.
  intros C. pose proof C as C'.
  apply createMessage_Some in C' as (G & _ & _ & Hm & t & Ht & Hts).
  assert (Get : forall tt i, getMessage s' tt i =
            match getMessage s tt i with
            | Some y => Some y
            | None => if same_key tt i m then Some m else None
            end).
  { intros tt i. unfold getMessage. rewrite Hm, find_app_split. done. }
  assert (Self : getMessage s' (m_threadId m) (m_messageid m) = Some m).
  { rewrite Get, G. replace (same_key _ _ m) with true by (symmetry; by apply same_key_true). done. }
  split; [exact Self|]. split.
  - intros tt i N. rewrite Get. destruct (getMessage s tt i); [done|].
    destruct (same_key tt i m) eqn:E; [|done].
    apply same_key_true in E. unfold key in E. congruence.
  - split.
    + unfold createMessage. rewrite Self. done.
    + intros N. rewrite Hts.
      replace (truthy (Some (m_threadId m))) with true
        by (symmetry; simpl; apply negb_true_iff, String.eqb_neq, N).
      rewrite lookup_insert_eq. done.
Qed.

Definition msg_bob : Message := mkMessage "@g" "t1" "1" "bob" ["alice"] "Re: Hi" "hey".

Lemma createMessage_getMessage_witness :
  createMessage s_hi msg_bob = Some (snd (reply s_hi req_bob)) /\
  getMessage (snd (reply s_hi req_bob)) "t1" "1" = Some msg_bob /\
  (forall t i, (t, i) <> ("t1", "1") ->
     getMessage (snd (reply s_hi req_bob)) t i = getMessage s_hi t i) /\
  createMessage (snd (reply s_hi req_bob)) msg_bob = None /\
  ("t1" <> "" -> option_map t_lastIndex (threads (snd (reply s_hi req_bob)) !! "t1") = Some "1").
Proof.
  assert (C : createMessage s_hi msg_bob = Some (snd (reply s_hi req_bob))) by reflexivity.
  split; [exact C|]. exact (createMessage_getMessage s_hi msg_bob _ C).
Defined.

(* ------------------------------------------------------------------ *)
(** ** What a successful write or reply stores *)

Lemma send_reply_Some s1 req th rec mid tid nt s' :
  truthy (r_threadId req) = true ->
  send_reply s1 req th rec = (R201 mid tid nt, s') ->
  exists msg, createMessage s1 msg = Some s' /\
    tid = default "" (r_threadId req) /\
    m_threadId msg = tid /\ m_messageid msg = mid /\ m_groupId msg = t_groupId th /\
    m_from msg = default "" (r_from req) /\ m_to msg = rec /\
    m_subject msg = replySubject (t_subject th) /\
    binds_text (default JNull (r_body req)) = Some (m_body msg).
Proof.
  intros T. destruct rec as [|a rec]; [intros H; injection H; discriminate|].
  destruct (r_threadId req) as [t|] eqn:Rt; [|discriminate].
  unfold send_reply. rewrite Rt. simpl default.
  rewrite (Message_new_existing _ _ _ _ _ t _ T).
  match goal with |- context [createMessage_obj s1 ?m] => set (mo := m) end.
  destruct (createMessage_obj s1 mo) as [s2|] eqn:C; [|discriminate].
  intros H. injection H as <- <- _ <-.
  apply createMessage_obj_Some in C as (msg & R & C & Hg & Ht & Hi & Hf & Hto).
  apply (message_row_Some mo (replySubject (t_subject th)) msg) in R as (Hs & Hb);
    [|apply subject_arg_str].
  exists msg. repeat split; done.
Qed.

Lemma reply_gen_Some s req f mid tid nt s' :
  (match resolve_reply s req with
   | inl r => r
   | inr (thread, s1, target) => send_reply s1 req thread (f target)
   end) = (R201 mid tid nt, s') ->
  exists th s1 msg, threads s !! tid = Some th /\ messages s1 = messages s /\
    createMessage s1 msg = Some s' /\
    m_threadId msg = tid /\ m_messageid msg = mid /\ m_groupId msg = t_groupId th /\
    m_from msg = default "" (r_from req) /\
    m_subject msg = replySubject (t_subject th) /\
    binds_text (default JNull (r_body req)) = Some (m_body msg).
Proof.
  destruct (resolve_reply s req) as [[r s1]|[[th s1] tm]] eqn:RR.
  - intros H. injection H as -> _. exfalso.
    by apply (resolve_reply_inl_not201 s req _ s1 mid tid nt RR).
  - apply resolve_reply_inr in RR as (Tt & _ & _ & Th & (grp & EG & _) & _).
    intros H. apply send_reply_Some in H as (msg & C & Et & Ht & Hi & Hg & Hf & _ & Hs & Hb);
      [|done].
    apply ensureGroup_state in EG as (_ & Hm & _).
    subst tid. exists th, s1, msg. repeat split; done.
Qed.

Lemma reachable_reply s req : reachable s -> reachable (snd (reply s req)).
Proof. intros R. apply (reachable_step s); [done|apply step_reply]. Qed.

Lemma reachable_reply_all s req : reachable s -> reachable (snd (reply_all s req)).
Proof. intros R. apply (reachable_step s); [done|apply step_reply_all]. Qed.

Lemma reachable_write s req uuid : reachable s -> reachable (snd (write s req uuid)).
Proof. intros R. apply (reachable_step s); [done|apply step_write]. Qed.

Lemma thread_rows_append s1 msg s' tid :
  createMessage s1 msg = Some s' -> m_threadId msg = tid ->
  thread_rows s' tid = (thread_rows s1 tid ++ [msg])%list /\
  forall t, t <> tid -> thread_rows s' t = thread_rows s1 t.
Proof.
  intros C Et. split.
  - rewrite (thread_rows_createMessage s1 msg s' tid C), Et, String.eqb_refl. done.
  - intros t N. rewrite (thread_rows_createMessage s1 msg s' t C).
    replace (String.eqb (m_threadId msg) t) with false
      by (symmetry; apply String.eqb_neq; congruence).
    apply app_nil_r.
Qed.

(** In a reachable store, a successful reply or reply-all appends exactly
    one message at the end of the thread's listing: it carries the answered
    id, the thread's group, the sender of the request, the text bound for
    its body and the reply subject of the thread's subject; the listing of
    every other thread is unchanged. *)
Theorem reply_appends_one_message (s : State) (req : ReplyReq)
    (mid tid : string) (nt : bool) (s' : State) :
  reachable s ->
  reply s req = (R201 mid tid nt, s') \/ reply_all s req = (R201 mid tid nt, s') ->
  exists th m, threads s !! tid = Some th /\
    listMessagesByThread s' tid = (listMessagesByThread s tid ++ [m])%list /\
    m_threadId m = tid /\ m_messageid m = mid /\ m_groupId m = t_groupId th /\
    m_from m = default "" (r_from req) /\
    binds_text (default JNull (r_body req)) = Some (m_body m) /\
    m_subject m = replySubject (t_subject th) /\
    (forall t, t <> tid -> listMessagesByThread s' t = listMessagesByThread s t).
Proof.
  intros Rs H.
  assert (Rs' : reachable s').
  { destruct H as [H|H].
    - replace s' with (snd (reply s req)) by (rewrite H; done). by apply reachable_reply.
    - replace s' with (snd (reply_all s req)) by (rewrite H; done). by apply reachable_reply_all. }
  destruct (reachable_Inv s Rs) as [K _ _]. destruct (reachable_Inv s' Rs') as [K' _ _].
  assert (G : exists th s1 msg, threads s !! tid = Some th /\ messages s1 = messages s /\
    createMessage s1 msg = Some s' /\
    m_threadId msg = tid /\ m_messageid msg = mid /\ m_groupId msg = t_groupId th /\
    m_from msg = default "" (r_from req) /\
    m_subject msg = replySubject (t_subject th) /\
    binds_text (default JNull (r_body req)) = Some (m_body msg)).
  { destruct H as [H|H]; eapply reply_gen_Some; exact H. }
  destruct G as (th & s1 & msg & Th & Hm & C & Et & Hi & Hg & Hf & Hs & Hb).
  destruct (thread_rows_append s1 msg s' tid C Et) as [A O].
  exists th, msg. split; [done|]. split.
  - rewrite !listMessagesByThread_rows by done. rewrite A, (thread_rows_frame s1 s) by done. done.
  - repeat split; try done. intros t N. rewrite !listMessagesByThread_rows by done.
    rewrite O by done. by apply thread_rows_frame.
Qed.

Lemma reply_appends_one_message_witness :
  reachable s_hi /\
  (reply s_hi req_bob = (R201 "1" "t1" false, snd (reply s_hi req_bob)) \/
   reply_all s_hi req_bob = (R201 "1" "t1" false, snd (reply s_hi req_bob))) /\
  exists th m, threads s_hi !! "t1" = Some th /\
    listMessagesByThread (snd (reply s_hi req_bob)) "t1" =
      (listMessagesByThread s_hi "t1" ++ [m])%list /\
    m_threadId m = "t1" /\ m_messageid m = "1" /\ m_groupId m = t_groupId th /\
    m_from m = default "" (r_from req_bob) /\
    binds_text (default JNull (r_body req_bob)) = Some (m_body m) /\
    m_subject m = replySubject (t_subject th) /\
    (forall t, t <> "t1" ->
       listMessagesByThread (snd (reply s_hi req_bob)) t = listMessagesByThread s_hi t).
Proof.
  assert (H : reply s_hi req_bob = (R201 "1" "t1" false, snd (reply s_hi req_bob)))
    by reflexivity.
  split; [exact reachable_s_hi|]. split; [by left|].
  exact (reply_appends_one_message s_hi req_bob "1" "t1" false _ reachable_s_hi (or_introl H)).
Defined.

(** The subject [POST /emails/write] passes to the constructor. *)
Definition write_subject (req : WriteReq) : JSON := nullish (w_subject req) (JStr DEFAULT_SUBJECT).

Lemma write_Some s req uuid mid tid nt s' :
  write s req uuid = (R201 mid tid nt, s') ->
  exists grp s1 th0 s2 msg,
    ensureGroup s (default "" (w_groupId req)) = (grp, s1) /\
    createThread s1 th0 = Some s2 /\ createMessage s2 msg = Some s' /\
    tid = uuid /\ mid = "0" /\ t_threadId th0 = uuid /\ t_lastIndex th0 = "0" /\
    binds_text (write_subject req) = Some (t_subject th0) /\
    m_threadId msg = uuid /\ m_messageid msg = "0" /\
    m_groupId msg = default "" (w_groupId req) /\ m_from msg = default "" (w_from req) /\
    m_to msg = normalizeRecipients (w_to req) /\
    binds_text (if json_truthy (write_subject req) then write_subject req else JStr "") =
      Some (m_subject msg) /\
    binds_text (default JNull (w_body req)) = Some (m_body msg).
Proof.
  unfold write.
  destruct (_ || _ || _ || _); [discriminate|].
  destruct (normalizeRecipients (w_to req)) as [|a rest] eqn:NR; [discriminate|].
  destruct (ensureGroup s _) as [grp s1] eqn:EG.
  destruct (negb _); [discriminate|].
  destruct (validateAgents _ grp); [|discriminate].
  cbn [Message_new snd fst].
  match goal with |- context [createThread_obj s1 ?t] => set (th0 := t) end.
  destruct (createThread_obj s1 th0) as [s2|] eqn:CT; [|discriminate].
  match goal with |- context [createMessage_obj s2 ?m] => set (mo := m) end.
  destruct (createMessage_obj s2 mo) as [s3|] eqn:CM; [|discriminate].
  intros H. injection H as <- <- _ <-.
  apply createThread_obj_Some in CT as (x & Hx & CT).
  apply createMessage_obj_Some in CM as (msg & R & CM & Hg & Ht & Hi & Hf & Hto).
  change (tho_subject th0) with
    (nullish (Some (nullish (w_subject req) (JStr DEFAULT_SUBJECT))) (JStr "")) in Hx.
  rewrite nullish_twice in Hx. fold (write_subject req) in Hx.
  pose proof (subject_arg_binds _ _ Hx) as Hy.
  assert (Hz : binds_text (if json_truthy (mo_subject mo) then mo_subject mo else JStr "") =
                Some (if json_truthy (write_subject req) then x else "")).
  { change (mo_subject mo) with
      (nullish (Some (nullish (w_subject req) (JStr DEFAULT_SUBJECT))) (JStr "")).
    rewrite nullish_twice. exact Hy. }
  destruct (message_row_Some mo _ msg Hz R) as (Hs & Hb).
  exists grp, s1, (mkThread (tho_threadId th0) (tho_groupId th0) x (tho_createdBy th0)
                     (tho_lastIndex th0)), s2, msg.
  rewrite Hy, Hs. repeat split; done.
Qed.

(** In a reachable store, a successful [POST /emails/write] creates a
    thread that did not exist, under the answered id, whose listing is
    exactly one message: id "0", the requested group and sender, the
    normalised recipients, the text bound for the subject given (or
    ["No subject"]; [""] when that subject is falsy) and the text bound for
    the body; the listing of every other thread is unchanged. *)
Theorem write_creates_thread (s : State) (req : WriteReq) (uuid mid tid : string)
    (nt : bool) (s' : State) :
  reachable s -> write s req uuid = (R201 mid tid nt, s') ->
  threads s !! tid = None /\ listMessagesByThread s tid = [] /\
  is_Some (threads s' !! tid) /\
  (exists m, listMessagesByThread s' tid = [m] /\
    m_messageid m = "0" /\ m_groupId m = default "" (w_groupId req) /\
    m_from m = default "" (w_from req) /\ m_to m = normalizeRecipients (w_to req) /\
    binds_text (if json_truthy (write_subject req) then write_subject req else JStr "") =
      Some (m_subject m) /\
    binds_text (default JNull (w_body req)) = Some (m_body m)) /\
  (forall t, t <> tid -> listMessagesByThread s' t = listMessagesByThread s t).
Proof.
  intros Rs H.
  assert (Rs' : reachable s')
    by (replace s' with (snd (write s req uuid)) by (rewrite H; done); by apply reachable_write).
  destruct (reachable_Inv s Rs) as [K R _]. destruct (reachable_Inv s' Rs') as [K' _ _].
  apply write_Some in H as (grp & s1 & th0 & s2 & msg & EG & CT & CM & -> & _ & Ett & _ & _ &
                              Et & Hi & Hg & Hf & Hto & Hs & Hb).
  apply ensureGroup_state in EG as (Ht1 & Hm1 & _).
  pose proof CT as CT'. apply createThread_Some in CT' as (Hn & _ & _ & Hm2 & Hts2).
  assert (Tn : threads s !! uuid = None) by (rewrite <- Ht1, <- Ett; done).
  assert (E0 : thread_rows s uuid = []) by (by apply thread_rows_absent).
  destruct (thread_rows_append s2 msg s' uuid CM Et) as [A O].
  rewrite !listMessagesByThread_rows by done.
  split; [done|]. split; [done|]. split.
  - pose proof (createMessage_Some _ _ _ CM) as (_ & _ & _ & _ & t' & _ & Hts3).
    rewrite Hts3, Et. destruct (truthy (Some uuid)).
    + rewrite lookup_insert_eq. eauto.
    + rewrite Hts2, Ett, lookup_insert_eq. eauto.
  - split.
    + exists msg. rewrite A, (thread_rows_frame s s2) by (rewrite Hm2; done).
      rewrite E0. repeat split; done.
    + intros t N. rewrite !listMessagesByThread_rows by done.
      rewrite O by done. apply thread_rows_frame. rewrite Hm2. done.
Qed.

Lemma write_creates_thread_witness :
  reachable s_g /\ write s_g req_hi "t1" = (R201 "0" "t1" true, s_hi) /\
  threads s_g !! "t1" = None /\ listMessagesByThread s_g "t1" = [] /\
  is_Some (threads s_hi !! "t1") /\
  (exists m, listMessagesByThread s_hi "t1" = [m] /\
    m_messageid m = "0" /\ m_groupId m = default "" (w_groupId req_hi) /\
    m_from m = default "" (w_from req_hi) /\ m_to m = normalizeRecipients (w_to req_hi) /\
    binds_text (if json_truthy (write_subject req_hi) then write_subject req_hi else JStr "") =
      Some (m_subject m) /\
    binds_text (default JNull (w_body req_hi)) = Some (m_body m)) /\
  (forall t, t <> "t1" -> listMessagesByThread s_hi t = listMessagesByThread s_g t).
Proof.
  assert (Rg : reachable s_g)
    by (apply (reachable_step empty_state); [apply reachable_init|apply step_wizard]).
  assert (H : write s_g req_hi "t1" = (R201 "0" "t1" true, s_hi)) by reflexivity.
  split; [exact Rg|]. split; [exact H|].
  exact (write_creates_thread s_g req_hi "t1" "0" "t1" true s_hi Rg H).
Defined.

(* ------------------------------------------------------------------ *)
(** ** Outcome of [POST /emails/write] *)










(* ------------------------------------------------------------------ *)
(** ** Replies answer 500 only on a body that cannot be bound *)







(* ------------------------------------------------------------------ *)
(** ** [GET /messages/:messageId] with a [threadId] *)

Definition s_gh : State := wizard_create s_hi "@h" ["dave"].

(** With a non-empty [threadId], [GET /messages/:messageId] checks only
    that a given [groupId] names an existing group: the answer is then the
    one without [groupId], even when the message belongs to another group;
    a [groupId] naming no group is a 404 whatever the thread. *)
Theorem get_message_thread_ignores_group (s : State) (mid tid g : string) :
  tid <> "" -> g <> "" ->
  (is_Some (groups s !! g) ->
   get_message s mid (Some tid) (Some g) = get_message s mid (Some tid) None) /\
  (groups s !! g = None -> get_message s mid (Some tid) (Some g) = R404 GroupNotFound).
Proof.
  intros Nt Ng. unfold get_message. cbn [truthy default]. change (id g) with g. change (id tid) with tid.
  replace (String.eqb g "") with false by (symmetry; by apply String.eqb_neq).
  replace (String.eqb tid "") with false by (symmetry; by apply String.eqb_neq).
  cbn [negb andb]. split.
  - intros [x Hx]. assert (E : getGroup s g = Some x) by exact Hx.
    rewrite E, bool_decide_false by discriminate. done.
  - intros Hn. assert (E : getGroup s g = None) by exact Hn.
    rewrite E, bool_decide_true by done. done.
Qed.

Lemma get_message_thread_ignores_group_witness :
  get_message s_gh "0" (Some "t1") (Some "@h") = R200 (mkMessage "@g" "t1" "0" "alice" ["bob"] "Hi" "hello") /\
  ((is_Some (groups s_gh !! "@h") ->
    get_message s_gh "0" (Some "t1") (Some "@h") = get_message s_gh "0" (Some "t1") None) /\
   (groups s_gh !! "@h" = None -> get_message s_gh "0" (Some "t1") (Some "@h") = R404 GroupNotFound)).
Proof.
  split; [reflexivity|]. apply get_message_thread_ignores_group; discriminate.
Defined.

(* ------------------------------------------------------------------ *)
(** ** [resolveGroupId] *)

Lemma omap_listGroups (m : gmap GroupId Group) l :
  (forall p, In p l -> m !! p.1 = Some p.2) ->
  omap (fun id => option_map (fun g => mkGroup id (g_agents g)) (m !! id)) (map fst l) =
  map (fun p => mkGroup p.1 (g_agents p.2)) l.
Proof.
  induction l as [|[i x] l IH]; simpl; [done|]. intros H.
  pose proof (H (i, x) (or_introl eq_refl)) as Hx. simpl in Hx. rewrite Hx. simpl.
  f_equal. apply IH. auto.
Qed.

Lemma listGroups_map s :
  listGroups s = map (fun p => mkGroup p.1 (g_agents p.2)) (map_to_list (groups s)).
Proof.
  unfold listGroups, getGroup. apply omap_listGroups.
  intros [i x] Hin. apply elem_of_map_to_list, list_elem_of_In, Hin.
Qed.

Lemma resolveGroupId_exists s q g : resolveGroupId s q = inr g -> is_Some (getGroup s g).
Proof.
  unfold resolveGroupId. destruct (truthy q).
  - unfold getGroup. destruct (groups s !! default "" q) eqn:E; [|discriminate].
    intros H. injection H as <-. rewrite E. eauto.
  - rewrite listGroups_map. destruct (map_to_list (groups s)) as [|[i x] [|p l]] eqn:E;
      try discriminate.
    intros H. injection H as <-. simpl. exists x.
    apply elem_of_map_to_list. rewrite E. apply list_elem_of_singleton. done.
Qed.

(** [resolveGroupId] only ever picks an existing group. A non-empty query
    [groupId] is used when the group exists and is a 404 otherwise;
    without one, no group is a 404, a single group is picked, and two or
    more groups are a 400. *)
Theorem resolveGroupId_spec (s : State) (q : option GroupId) :
  (forall g, resolveGroupId s q = inr g -> is_Some (getGroup s g)) /\
  (forall g, q = Some g -> g <> "" ->
     resolveGroupId s q = if bool_decide (is_Some (getGroup s g)) then inr g
                          else inl (GroupIdNotFound g)) /\
  (truthy q = false -> groups s = ∅ -> resolveGroupId s q = inl NoGroups) /\
  (truthy q = false -> forall g grp, groups s = {[g := grp]} -> resolveGroupId s q = inr g) /\
  (truthy q = false -> 2 <= size (groups s) -> resolveGroupId s q = inl MultipleGroups).
Proof.
  split; [apply resolveGroupId_exists|]. unfold resolveGroupId. split; [|split; [|split]].
  - intros g -> N. change (truthy (Some g)) with (negb (String.eqb g "")).
    change (default "" (Some g)) with g.
    replace (String.eqb g "") with false by (symmetry; by apply String.eqb_neq).
    cbn [negb]. destruct (getGroup s g) eqn:E.
    + rewrite bool_decide_true by eauto. done.
    + rewrite bool_decide_false by (intros [? ?]; discriminate). done.
  - intros -> E. rewrite listGroups_map, E, map_to_list_empty. done.
  - intros -> g grp E. rewrite listGroups_map, E, map_to_list_singleton. done.
  - intros -> L. rewrite listGroups_map. rewrite <- length_map_to_list in L.
    destruct (map_to_list (groups s)) as [|p1 [|p2 l]]; simpl in L; [lia|lia|done].
Qed.

(* ------------------------------------------------------------------ *)
(** ** The message listings *)

Lemma firstn_In_l {A} n (l : list A) x : In x (firstn n l) -> In x l.
Proof.
  revert l. induction n as [|n IH]; intros [|y l]; simpl; try done.
  intros [->|H]; [by left|right; by apply IH].
Qed.

Lemma sql_limit_incl lim l r : In r (sql_limit lim l) -> In r l.
Proof.
  unfold sql_limit. destruct lim as [n|]; [|done].
  destruct (Z.ltb 0 n); [apply firstn_In_l|done].
Qed.

Lemma omap_getMessage_rows s rows :
  NoDup (map key (messages s)) -> (forall r, In r rows -> In r (messages s)) ->
  omap (fun r => getMessage s (m_threadId r) (m_messageid r)) rows = rows.
Proof.
  intros K H. apply omap_id_on. intros r Hin. unfold getMessage. apply find_key; auto.
Qed.

Lemma existsb_seen seen r :
  existsb (fun p => same_key (fst p) (snd p) r) seen = true <-> In (key r) seen.
Proof.
  rewrite existsb_exists. split.
  - intros ([t i] & Hin & E). apply same_key_true in E. simpl in E. rewrite E. done.
  - intros Hin. exists (key r). split; [done|]. apply same_key_true. done.
Qed.

Lemma distinct_skip seen r xs l :
  In (key r) seen -> distinct_keys seen (map (fun _ : string => r) xs ++ l) = distinct_keys seen l.
Proof.
  intros Hs. induction xs as [|x xs IH]; simpl; [done|].
  replace (existsb _ seen) with true by (symmetry; by apply existsb_seen). done.
Qed.

Lemma existsb_filter_nil (f : string -> bool) l :
  existsb f l = match List.filter f l with [] => false | _ => true end.
Proof.
  induction l as [|x l IH]; simpl; [done|]. destruct (f x); done.
Qed.

(** With distinct (thread_id, message_id) pairs, the DISTINCT join keeps
    each row where [agent] is a recipient once, in order. *)
Lemma distinct_join seen agent rows :
  NoDup (map key rows) -> (forall r, In r rows -> ~ In (key r) seen) ->
  distinct_keys seen (join_to agent rows) =
  List.filter (fun r => elem_b agent (m_to r)) rows.
Proof.
  revert seen. induction rows as [|r rows IH]; intros seen ND Hs; [done|].
  apply NoDup_cons in ND as [Nr ND].
  cbn [join_to flat_map List.filter]. fold (join_to agent rows).
  unfold elem_b. rewrite existsb_filter_nil.
  destruct (List.filter (String.eqb agent) (m_to r)) as [|x xs]; cbn [map app].
  - apply IH; [done|]. intros r' Hin. apply Hs. right. done.
  - cbn [distinct_keys]. replace (existsb (fun p => same_key (fst p) (snd p) r) seen) with false.
    2:{ symmetry. apply not_true_iff_false. rewrite existsb_seen. apply Hs. left. done. }
    f_equal. change (m_threadId r, m_messageid r) with (key r).
    rewrite distinct_skip by (left; done).
    apply IH; [done|]. intros r' Hin [E|E].
    + apply Nr. rewrite E. apply list_elem_of_In, in_map, Hin.
    + apply (Hs r'); [right; done|done].
Qed.

Lemma NoDup_key_filter_rev f l : NoDup (map key l) -> NoDup (map key (rev (List.filter f l))).
Proof.
  intros ND. rewrite map_rev. apply NoDup_ListNoDup. apply List.NoDup_rev.
  apply NoDup_ListNoDup in ND. revert ND. induction l as [|x l IH]; simpl; [done|].
  intros ND. inversion ND as [|? ? Nx ND']. subst. destruct (f x); simpl; [|auto].
  constructor; [|auto]. intros Hin. apply Nx. apply in_map_iff in Hin as (y & <- & Hy).
  apply filter_In in Hy as [Hy _]. apply in_map, Hy.
Qed.

Lemma filter_rev_comm (f : Message -> bool) l :
  List.filter f (rev l) = rev (List.filter f l).
Proof.
  induction l as [|x l IH]; simpl; [done|]. rewrite List.filter_app, IH. simpl.
  destruct (f x); simpl; [done|]. apply app_nil_r.
Qed.

Lemma filter_filter_andb (f g : Message -> bool) l :
  List.filter g (List.filter f l) = List.filter (fun r => f r && g r) l.
Proof.
  induction l as [|x l IH]; simpl; [done|]. destruct (f x); simpl; [|done].
  destruct (g x); rewrite IH; done.
Qed.

Lemma sql_limit_rows_in s lim f r :
  In r (sql_limit lim (rev (List.filter f (messages s)))) -> In r (messages s).
Proof.
  intros H. apply sql_limit_incl in H. rewrite <- in_rev in H. apply filter_In in H. tauto.
Qed.

Lemma listMessagesByGroup_rows s g lim :
  NoDup (map key (messages s)) ->
  listMessagesByGroup s g lim =
    sql_limit lim (rev (List.filter (fun r => String.eqb (m_groupId r) g) (messages s))).
Proof.
  intros K. unfold listMessagesByGroup. apply omap_getMessage_rows; [done|].
  apply sql_limit_rows_in.
Qed.

Lemma listMessagesByAgent_rows s a g lim :
  NoDup (map key (messages s)) ->
  listMessagesByAgent s a g lim =
    sql_limit lim (rev (List.filter (fun r => String.eqb (m_from r) a && group_filter g r)
                          (messages s))).
Proof.
  intros K. unfold listMessagesByAgent. apply omap_getMessage_rows; [done|].
  apply sql_limit_rows_in.
Qed.

Lemma listMessagesForAgent_rows s a g lim :
  NoDup (map key (messages s)) ->
  listMessagesForAgent s a g lim =
    sql_limit lim (rev (List.filter (fun r => group_filter g r && elem_b a (m_to r))
                          (messages s))).
Proof.
  intros K. unfold listMessagesForAgent.
  rewrite (distinct_join [] a); [|apply NoDup_key_filter_rev, K|intros r _ []].
  rewrite filter_rev_comm, filter_filter_andb.
  apply omap_getMessage_rows; [done|]. apply sql_limit_rows_in.
Qed.

(** With distinct (thread_id, message_id) pairs (as in every reachable
    store), the three listings return the stored rows that match, newest
    first, the first [limit] of them when [limit] is a positive number and
    all of them otherwise: [listMessagesByGroup] the rows of the group,
    [listMessagesByAgent] the rows sent by the agent, [listMessagesForAgent]
    the rows that list the agent among their recipients, each once even
    when it is listed several times. *)
Theorem message_listings_spec (s : State) :
  NoDup (map (fun m => (m_threadId m, m_messageid m)) (messages s)) ->
  (forall g lim, listMessagesByGroup s g lim =
     sql_limit lim (rev (List.filter (fun r => String.eqb (m_groupId r) g) (messages s)))) /\
  (forall a g lim, listMessagesByAgent s a g lim =
     sql_limit lim (rev (List.filter (fun r => String.eqb (m_from r) a && group_filter g r)
                           (messages s)))) /\
  (forall a g lim, listMessagesForAgent s a g lim =
     sql_limit lim (rev (List.filter (fun r => group_filter g r && elem_b a (m_to r))
                           (messages s)))).
Proof.
  intros K. split; [|split].
  - intros g lim. apply listMessagesByGroup_rows, K.
  - intros a g lim. apply listMessagesByAgent_rows, K.
  - intros a g lim. apply listMessagesForAgent_rows, K.
Qed.

Lemma message_listings_spec_witness :
  NoDup (map (fun m => (m_threadId m, m_messageid m)) (messages s_hi)) /\
  (forall g lim, listMessagesByGroup s_hi g lim =
     sql_limit lim (rev (List.filter (fun r => String.eqb (m_groupId r) g) (messages s_hi)))) /\
  (forall a g lim, listMessagesByAgent s_hi a g lim =
     sql_limit lim (rev (List.filter (fun r => String.eqb (m_from r) a && group_filter g r)
                           (messages s_hi)))) /\
  (forall a g lim, listMessagesForAgent s_hi a g lim =
     sql_limit lim (rev (List.filter (fun r => group_filter g r && elem_b a (m_to r))
                           (messages s_hi)))).
Proof.
  assert (K : NoDup (map (fun m => (m_threadId m, m_messageid m)) (messages s_hi)))
    by (vm_compute; repeat constructor; set_solver).
  split; [exact K|]. exact (message_listings_spec s_hi K).
Defined.

(* ------------------------------------------------------------------ *)
(** ** [GET /inbox] and [GET /inbox/short] *)

Lemma parseLimit_pos p : Z.lt 0 (parseLimit p DEFAULT_LIMIT).
Proof.
  unfold parseLimit, DEFAULT_LIMIT. destruct p as [z|]; [|lia].
  destruct (Z.ltb_spec 0 z); lia.
Qed.

Lemma sql_limit_pos n l : Z.lt 0 n -> sql_limit (Some n) l = firstn (Z.to_nat n) l.
Proof. intros H. unfold sql_limit. replace (Z.ltb 0 n) with true by (symmetry; lia). done. Qed.

(** In a reachable store, an answered [GET /inbox] lists the messages of
    the group [resolveGroupId] picked (an existing group), newest first,
    at most [parseLimit] of them (always at least one); with a non-empty
    [agentAddress], only those that list the agent among their
    recipients. *)
Theorem inbox_newest_first (s : State) (pl : option Z) (a q : option string)
    (l : list Message) :
  reachable s -> inbox s pl a q = Some (inr l) ->
  exists g, resolveGroupId s q = inr g /\ is_Some (getGroup s g) /\
    Z.lt 0 (parseLimit pl DEFAULT_LIMIT) /\
    l = firstn (Z.to_nat (parseLimit pl DEFAULT_LIMIT))
          (rev (List.filter (fun r => String.eqb (m_groupId r) g &&
                                      (if truthy a then elem_b (default "" a) (m_to r)
                                       else true))
                  (messages s))).
Proof.
  intros Rs. destruct (reachable_Inv s Rs) as [K _ _]. unfold inbox.
  destruct (resolveGroupId s q) as [e|g] eqn:RG; [discriminate|].
  destruct (negb (truthy (Some g))) eqn:T; [discriminate|].
  apply negb_false_iff in T.
  intros H. injection H as <-. exists g.
  split; [done|]. split; [by apply (resolveGroupId_exists s q)|].
  split; [apply parseLimit_pos|].
  assert (Gf : forall r, group_filter (Some g) r = String.eqb (m_groupId r) g)
    by (intros r; unfold group_filter; rewrite T; done).
  destruct (truthy a).
  - rewrite listMessagesForAgent_rows, sql_limit_pos by (done || apply parseLimit_pos).
    do 2 f_equal. apply List.filter_ext. intros r. rewrite Gf. done.
  - rewrite listMessagesByGroup_rows, sql_limit_pos by (done || apply parseLimit_pos).
    do 2 f_equal. apply List.filter_ext. intros r. rewrite andb_true_r. done.
Qed.

Lemma inbox_newest_first_witness :
  reachable s_hi /\ inbox s_hi None (Some "bob") None = Some (inr (messages s_hi)) /\
  exists g, resolveGroupId s_hi None = inr g /\ is_Some (getGroup s_hi g) /\
    Z.lt 0 (parseLimit None DEFAULT_LIMIT) /\
    messages s_hi = firstn (Z.to_nat (parseLimit None DEFAULT_LIMIT))
          (rev (List.filter (fun r => String.eqb (m_groupId r) g &&
                                      (if truthy (Some "bob") then elem_b (default "" (Some "bob")) (m_to r)
                                       else true))
                  (messages s_hi))).
Proof.
  assert (H : inbox s_hi None (Some "bob") None = Some (inr (messages s_hi))) by reflexivity.
  split; [exact reachable_s_hi|]. split; [exact H|].
  exact (inbox_newest_first s_hi None (Some "bob") None _ reachable_s_hi H).
Defined.

(** A recipient listed twice is still shown the message once. *)
Definition req_twice : WriteReq :=
  mkWriteReq (Some "@g") (Some "alice") (Some (ToList ["bob"; " bob "])) (Some (JStr "Hi")) (Some (JStr "hello")).

Example inbox_listed_twice :
  m_to (mkMessage "@g" "t2" "0" "alice" ["bob"; "bob"] "Hi" "hello") = ["bob"; "bob"] /\
  inbox (snd (write s_g req_twice "t2")) None (Some "bob") None =
    Some (inr [mkMessage "@g" "t2" "0" "alice" ["bob"; "bob"] "Hi" "hello"]).
Proof. split; reflexivity. Qed.

Lemma substring0_length n s : String.length (substring 0 n s) = Nat.min n (String.length s).
Proof.
  revert n. induction s as [|c s IH]; intros [|n]; simpl; try done. rewrite IH. done.
Qed.

Lemma substring0_prefix n s : String.prefix (substring 0 n s) s = true.
Proof.
  revert n. induction s as [|c s IH]; intros [|n]; simpl; try done.
  destruct (ascii_dec c c); [apply IH|done].
Qed.

Lemma substring0_full n s : String.length s <= n -> substring 0 n s = s.
Proof.
  revert n. induction s as [|c s IH]; intros [|n]; simpl; try done; [lia|].
  intros H. rewrite IH by lia. done.
Qed.

(** The [bodyPreview] of [GET /inbox/short] is the first 500 code units
    of the body: a prefix of it, of length [min 500 (length body)], and
    the whole body when it is at most 500 long. *)
Theorem serializeShortMessage_preview (m : Message) :
  String.length (sm_bodyPreview (serializeShortMessage m)) =
    Nat.min 500 (String.length (m_body m)) /\
  String.prefix (sm_bodyPreview (serializeShortMessage m)) (m_body m) = true /\
  (String.length (m_body m) <= 500 -> sm_bodyPreview (serializeShortMessage m) = m_body m).
Proof.
  simpl. split; [apply substring0_length|]. split; [apply substring0_prefix|].
  apply substring0_full.
Qed.

(* ------------------------------------------------------------------ *)
(** ** [GET /threads/:threadId] *)

(** In a reachable store, [GET /threads/:threadId] is a 404 exactly when
    the thread does not exist; otherwise the thread's [messages] id list
    matches the listed messages, which are all the stored messages of the
    thread in insertion order, and the thread's [lastIndex] is the id of
    the last of them, or ["0"] when the thread has none (a thread left
    empty by a failed write). *)
Theorem get_thread_spec (s : State) (tid : ThreadId) :
  reachable s ->
  (get_thread s tid = None <-> threads s !! tid = None) /\
  (forall th ids ms, get_thread s tid = Some (th, ids, ms) ->
     threads s !! tid = Some th /\ ids = map m_messageid ms /\
     ms = List.filter (fun r => String.eqb (m_threadId r) tid) (messages s) /\
     t_lastIndex th = match last ms with Some m => m_messageid m | None => "0" end).
Proof.
  intros Rs. destruct (reachable_Inv s Rs) as [K _ Sq]. unfold get_thread, getThread.
  split.
  - destruct (threads s !! tid); split; done.
  - intros th ids ms. destruct (threads s !! tid) as [th0|] eqn:Th; [|discriminate].
    intros H. injection H as <- <- <-.
    rewrite listMessagesByThread_rows by done.
    destruct (Sq tid th0 Th) as (n & E & L).
    split; [done|]. split; [done|]. split; [done|].
    rewrite L. destruct n as [|k].
    + simpl in E. apply map_eq_nil in E as ->. done.
    + assert (Hl : option_map m_messageid (last (thread_rows s tid)) = Some (str_nat k)).
      { rewrite <- last_map, E, (seq_S k 0), map_app. cbn [map]. by rewrite last_snoc. }
      destruct (last (thread_rows s tid)); simpl in Hl |- *; [congruence|discriminate].
Qed.

Lemma get_thread_spec_witness :
  reachable s_hi /\
  (get_thread s_hi "t1" = None <-> threads s_hi !! "t1" = None) /\
  (forall th ids ms, get_thread s_hi "t1" = Some (th, ids, ms) ->
     threads s_hi !! "t1" = Some th /\ ids = map m_messageid ms /\
     ms = List.filter (fun r => String.eqb (m_threadId r) "t1") (messages s_hi) /\
     t_lastIndex th = match last ms with Some m => m_messageid m | None => "0" end).
Proof. split; [exact reachable_s_hi|]. apply get_thread_spec. exact reachable_s_hi. Defined.

(* ------------------------------------------------------------------ *)
(** ** [normalizeRecipients] *)

Lemma normalize_list_In x l :
  In x (map trim (List.filter (fun v => negb (String.eqb (trim v) "")) l)) ->
  x <> "" /\ trim x = x.
Proof.
  intros H. apply in_map_iff in H as (v & <- & Hv). apply filter_In in Hv as [_ Hv].
  apply negb_true_iff, String.eqb_neq in Hv. split; [done|apply trim_idem].
Qed.

Lemma normalize_list_clean l :
  (forall x, In x l -> x <> "" /\ trim x = x) ->
  map trim (List.filter (fun v => negb (String.eqb (trim v) "")) l) = l.
Proof.
  induction l as [|x l IH]; simpl; [done|]. intros H.
  destruct (H x (or_introl eq_refl)) as [N T]. rewrite T.
  replace (String.eqb x "") with false by (symmetry; by apply String.eqb_neq).
  simpl. rewrite T, IH; [done|]. auto.
Qed.

(** Every recipient [normalizeRecipients] returns is non-empty and equal
    to its own trim, so normalising its result again changes nothing; it
    never returns more entries than the array it is given. *)
Theorem normalizeRecipients_clean (raw : option ToField) :
  (forall x, In x (normalizeRecipients raw) -> x <> "" /\ trim x = x) /\
  normalizeRecipients (Some (ToList (normalizeRecipients raw))) = normalizeRecipients raw /\
  (forall l, raw = Some (ToList l) -> List.length (normalizeRecipients raw) <= List.length l).
Proof.
  assert (C : forall x, In x (normalizeRecipients raw) -> x <> "" /\ trim x = x).
  { destruct raw as [[l|t]|]; simpl.
    - intros x. apply normalize_list_In.
    - destruct (String.eqb_spec (trim t) ""); simpl; [done|].
      intros x [<-|[]]. split; [done|apply trim_idem].
    - done. }
  split; [done|]. split.
  - simpl. apply normalize_list_clean, C.
  - intros l ->. simpl. rewrite length_map. apply filter_length_le.
Qed.

(* ------------------------------------------------------------------ *)
(** ** Shape of reply subjects *)

(** Every reply subject starts with [re:] in some letter case, is
    non-empty and has no surrounding whitespace. *)
Theorem replySubject_shape (s : string) :
  has_re_prefix (replySubject s) /\ replySubject s <> "" /\
  trim (replySubject s) = replySubject s.
Proof.
  unfold replySubject.
  destruct (String.eqb s "" || String.eqb (trim s) "") eqn:G.
  - split; [exists "R"%char, "e"%char, " No subject"; auto|]. split; [discriminate|reflexivity].
  - assert (NE : trim s <> "").
    { intros E. rewrite E in G. rewrite orb_true_r in G. discriminate. }
    destruct (re_prefix_test (trim s)) eqn:P.
    + apply re_prefix_test_spec in P. split; [done|]. split; [done|apply trim_idem].
    + split; [exists "R"%char, "e"%char, (String " " (trim s)); auto|].
      split; [discriminate|]. apply trim_re_append; [apply trim_idem|done].
Qed.
